(** * benchmark_profile: an NVBit instruction-counting tool

    A shallow embedding of [tools/benchmark_profile/benchmark_profile.cu].
    The tool's globals become one record [state]; every call into NVBit,
    CUDA or pthreads is appended to a chronological log kept in that state,
    so that "which probes were requested" and "was the device synchronised"
    are facts about the log.  What NVBit answers (the related functions of a
    kernel, the instructions of a function) is a parameter of the model. *)

From Stdlib Require Import ZArith String Ascii DecimalString DecimalZ.
From stdpp Require Import gmap list strings.

Set Warnings "-clear-no-such-hyp".

Local Open Scope Z_scope.

(** ** Machine integers *)

(** [uint32_t] and [uint64_t] values are integers reduced modulo the width. *)
Definition UINT32_MAX : Z := 2 ^ 32 - 1.
Definition u32 (z : Z) : Z := z mod 2 ^ 32.
Definition u64 (z : Z) : Z := z mod 2 ^ 64.

(** C truth value of an [int]. *)
Definition truthy (z : Z) : bool := negb (z =? 0).

(** ** Data *)

(** [CUcontext] and [CUfunction] are opaque driver handles. *)
Abbreviation CUcontext := N (only parsing).
Abbreviation CUfunction := N (only parsing).

(** The getters of NVBit's [Instr] that the tool reads. *)
Record Instr := {
  getIdx : Z;               (* uint32_t *)
  getOpcode : string;
  getOpcodeShort : string;
  getSass : string
}.

(** [std::string::find]: position of the first occurrence, [None] is [npos]. *)
Definition find (s pat : string) : option nat := String.index 0 pat s.
Definition npos : option nat := None.
Definition neq_npos (r : option nat) : bool :=
  match r with Some _ => true | None => false end.

(** The addresses [(uint64_t)&x] of the four managed counters. *)
Inductive counter_addr :=
| addr_instr_counter | addr_shfl_counter | addr_ballot_counter | addr_indirect_counter.

Inductive ipoint_t := IPOINT_BEFORE | IPOINT_AFTER.

(** One entry of the log per call that leaves the tool. *)
Inductive api_call :=
| GetRelatedFunctions (ctx : CUcontext) (func : CUfunction)
| GetInstrs (ctx : CUcontext) (f : CUfunction)
| PrintfInspecting (ctx : CUcontext) (f : CUfunction) (num_instrs : nat)
| InstrPrint (i : Instr)
| InstrPrintDecoded (i : Instr)
| nvbit_insert_call (i : Instr) (dev_func : string) (ipoint : ipoint_t)
| nvbit_add_call_arg_guard_pred_val (i : Instr)
| nvbit_add_call_arg_const_val32 (i : Instr) (val : Z)
| nvbit_add_call_arg_const_val64 (i : Instr) (val : counter_addr)
| nvbit_enable_instrumented (ctx : CUcontext) (func : CUfunction) (flag : bool)
| pthread_mutex_lock
| pthread_mutex_unlock
| cudaDeviceSynchronize.

(** The driver entry points the callback distinguishes; every other
    callback id is [API_CUDA_other]. *)
Inductive nvbit_api_cuda_t :=
| API_CUDA_cuLaunch
| API_CUDA_cuLaunchKernel_ptsz
| API_CUDA_cuLaunchGrid
| API_CUDA_cuLaunchGridAsync
| API_CUDA_cuLaunchKernel
| API_CUDA_cuLaunchKernelEx
| API_CUDA_cuLaunchKernelEx_ptsz
| API_CUDA_cuLaunchCooperativeKernel
| API_CUDA_cuLaunchCooperativeKernel_ptsz
| API_CUDA_cuLaunchCooperativeKernelMultiDevice
| API_CUDA_cuProfilerStart
| API_CUDA_cuProfilerStop
| API_CUDA_other (n : N).

(** The control variables that [nvbit_at_init] reads from the environment. *)
Record config := {
  instr_begin_interval : Z;   (* uint32_t, INSTR_BEGIN *)
  instr_end_interval : Z;     (* uint32_t, INSTR_END *)
  start_grid_num : Z;         (* uint32_t, START_GRID_NUM *)
  end_grid_num : Z;           (* uint32_t, END_GRID_NUM *)
  verbose : Z;                (* int, TOOL_VERBOSE *)
  count_warp_level : Z;       (* int, COUNT_WARP_LEVEL *)
  exclude_pred_off : Z;       (* int, EXCLUDE_PRED_OFF *)
  active_from_start : Z;      (* int, ACTIVE_FROM_START *)
  mangled : bool              (* MANGLED_NAMES *)
}.

(** The defaults of the control variables. *)
Definition default_config : config :=
  {| instr_begin_interval := 0; instr_end_interval := UINT32_MAX;
     start_grid_num := 0; end_grid_num := UINT32_MAX;
     verbose := 0; count_warp_level := 1; exclude_pred_off := 0;
     active_from_start := 1; mangled := true |}.

(** The mutable globals, the mutex and the log. *)
#[projections(primitive)]
Record state := {
  kernel_id : Z;              (* uint32_t *)
  total_instr : Z;            (* uint64_t, as the other totals *)
  total_cg : Z;
  total_indirect : Z;
  total_shfl : Z;
  total_ballot : Z;
  instr_counter : Z;          (* __managed__ uint64_t, as the other counters *)
  shfl_counter : Z;
  ballot_counter : Z;
  indirect_counter : Z;
  active_region : bool;
  mutex : bool;               (* true while locked *)
  already_instrumented : gset N;
  calls : list api_call
}.

(** Assignments to one global. *)
Definition set_total_instr (v : Z) (st : state) : state :=
  {| kernel_id := kernel_id st; total_instr := v; total_cg := total_cg st;
     total_indirect := total_indirect st; total_shfl := total_shfl st;
     total_ballot := total_ballot st; instr_counter := instr_counter st;
     shfl_counter := shfl_counter st; ballot_counter := ballot_counter st;
     indirect_counter := indirect_counter st; active_region := active_region st;
     mutex := mutex st; already_instrumented := already_instrumented st;
     calls := calls st |}.

Definition set_total_cg (v : Z) (st : state) : state :=
  {| kernel_id := kernel_id st; total_instr := total_instr st; total_cg := v;
     total_indirect := total_indirect st; total_shfl := total_shfl st;
     total_ballot := total_ballot st; instr_counter := instr_counter st;
     shfl_counter := shfl_counter st; ballot_counter := ballot_counter st;
     indirect_counter := indirect_counter st; active_region := active_region st;
     mutex := mutex st; already_instrumented := already_instrumented st;
     calls := calls st |}.

Definition set_total_indirect (v : Z) (st : state) : state :=
  {| kernel_id := kernel_id st; total_instr := total_instr st; total_cg := total_cg st;
     total_indirect := v; total_shfl := total_shfl st;
     total_ballot := total_ballot st; instr_counter := instr_counter st;
     shfl_counter := shfl_counter st; ballot_counter := ballot_counter st;
     indirect_counter := indirect_counter st; active_region := active_region st;
     mutex := mutex st; already_instrumented := already_instrumented st;
     calls := calls st |}.

Definition set_total_shfl (v : Z) (st : state) : state :=
  {| kernel_id := kernel_id st; total_instr := total_instr st; total_cg := total_cg st;
     total_indirect := total_indirect st; total_shfl := v;
     total_ballot := total_ballot st; instr_counter := instr_counter st;
     shfl_counter := shfl_counter st; ballot_counter := ballot_counter st;
     indirect_counter := indirect_counter st; active_region := active_region st;
     mutex := mutex st; already_instrumented := already_instrumented st;
     calls := calls st |}.

Definition set_total_ballot (v : Z) (st : state) : state :=
  {| kernel_id := kernel_id st; total_instr := total_instr st; total_cg := total_cg st;
     total_indirect := total_indirect st; total_shfl := total_shfl st;
     total_ballot := v; instr_counter := instr_counter st;
     shfl_counter := shfl_counter st; ballot_counter := ballot_counter st;
     indirect_counter := indirect_counter st; active_region := active_region st;
     mutex := mutex st; already_instrumented := already_instrumented st;
     calls := calls st |}.

Definition set_instr_counter (v : Z) (st : state) : state :=
  {| kernel_id := kernel_id st; total_instr := total_instr st; total_cg := total_cg st;
     total_indirect := total_indirect st; total_shfl := total_shfl st;
     total_ballot := total_ballot st; instr_counter := v;
     shfl_counter := shfl_counter st; ballot_counter := ballot_counter st;
     indirect_counter := indirect_counter st; active_region := active_region st;
     mutex := mutex st; already_instrumented := already_instrumented st;
     calls := calls st |}.

Definition set_shfl_counter (v : Z) (st : state) : state :=
  {| kernel_id := kernel_id st; total_instr := total_instr st; total_cg := total_cg st;
     total_indirect := total_indirect st; total_shfl := total_shfl st;
     total_ballot := total_ballot st; instr_counter := instr_counter st;
     shfl_counter := v; ballot_counter := ballot_counter st;
     indirect_counter := indirect_counter st; active_region := active_region st;
     mutex := mutex st; already_instrumented := already_instrumented st;
     calls := calls st |}.

Definition set_ballot_counter (v : Z) (st : state) : state :=
  {| kernel_id := kernel_id st; total_instr := total_instr st; total_cg := total_cg st;
     total_indirect := total_indirect st; total_shfl := total_shfl st;
     total_ballot := total_ballot st; instr_counter := instr_counter st;
     shfl_counter := shfl_counter st; ballot_counter := v;
     indirect_counter := indirect_counter st; active_region := active_region st;
     mutex := mutex st; already_instrumented := already_instrumented st;
     calls := calls st |}.

Definition set_indirect_counter (v : Z) (st : state) : state :=
  {| kernel_id := kernel_id st; total_instr := total_instr st; total_cg := total_cg st;
     total_indirect := total_indirect st; total_shfl := total_shfl st;
     total_ballot := total_ballot st; instr_counter := instr_counter st;
     shfl_counter := shfl_counter st; ballot_counter := ballot_counter st;
     indirect_counter := v; active_region := active_region st;
     mutex := mutex st; already_instrumented := already_instrumented st;
     calls := calls st |}.

Definition set_active_region (b : bool) (st : state) : state :=
  {| kernel_id := kernel_id st; total_instr := total_instr st; total_cg := total_cg st;
     total_indirect := total_indirect st; total_shfl := total_shfl st;
     total_ballot := total_ballot st; instr_counter := instr_counter st;
     shfl_counter := shfl_counter st; ballot_counter := ballot_counter st;
     indirect_counter := indirect_counter st; active_region := b;
     mutex := mutex st; already_instrumented := already_instrumented st;
     calls := calls st |}.

Definition set_mutex (b : bool) (st : state) : state :=
  {| kernel_id := kernel_id st; total_instr := total_instr st; total_cg := total_cg st;
     total_indirect := total_indirect st; total_shfl := total_shfl st;
     total_ballot := total_ballot st; instr_counter := instr_counter st;
     shfl_counter := shfl_counter st; ballot_counter := ballot_counter st;
     indirect_counter := indirect_counter st; active_region := active_region st;
     mutex := b; already_instrumented := already_instrumented st;
     calls := calls st |}.

Definition set_already_instrumented (s : gset N) (st : state) : state :=
  {| kernel_id := kernel_id st; total_instr := total_instr st; total_cg := total_cg st;
     total_indirect := total_indirect st; total_shfl := total_shfl st;
     total_ballot := total_ballot st; instr_counter := instr_counter st;
     shfl_counter := shfl_counter st; ballot_counter := ballot_counter st;
     indirect_counter := indirect_counter st; active_region := active_region st;
     mutex := mutex st; already_instrumented := s;
     calls := calls st |}.

(** Appending one call to the log. *)
Definition call (c : api_call) (st : state) : state :=
  {| kernel_id := kernel_id st; total_instr := total_instr st; total_cg := total_cg st;
     total_indirect := total_indirect st; total_shfl := total_shfl st;
     total_ballot := total_ballot st; instr_counter := instr_counter st;
     shfl_counter := shfl_counter st; ballot_counter := ballot_counter st;
     indirect_counter := indirect_counter st; active_region := active_region st;
     mutex := mutex st; already_instrumented := already_instrumented st;
     calls := calls st ++ [c] |}.

(** Statements are state transformers; [c1 ;; c2] runs [c1] and then [c2]. *)
Definition stmt := state -> state.
Definition skip : stmt := fun st => st.
Definition seq (c1 c2 : stmt) : stmt := fun st => c2 (c1 st).
Declare Scope stmt_scope.
Delimit Scope stmt_scope with stmt.
Bind Scope stmt_scope with stmt.
Notation "c1 ;; c2" := (seq c1 c2)
  (at level 100, c2 at level 200, right associativity) : stmt_scope.
Local Open Scope stmt_scope.

(** [std::unordered_set::insert]: the new set and the [.second] of the
    result, which tells whether the element was inserted. *)
Definition unordered_set_insert (f : CUfunction) (s : gset N) : gset N * bool :=
  if bool_decide (f ∈ s) then (s, false) else ({[f]} ∪ s, true).

(** ** The tool *)

Section Tool.

(** What NVBit answers for a context and a function. *)
Variable nvbit_get_related_functions : CUcontext -> CUfunction -> list CUfunction.
Variable nvbit_get_instrs : CUcontext -> CUfunction -> list Instr.

(** The control variables, fixed once [nvbit_at_init] has run. *)
Variable cfg : config.

(** The globals as the program text initialises them. *)
Definition globals : state :=
  {| kernel_id := 0; total_instr := 0; total_cg := 0; total_indirect := 0;
     total_shfl := 0; total_ballot := 0; instr_counter := 0; shfl_counter := 0;
     ballot_counter := 0; indirect_counter := 0; active_region := true;
     mutex := false; already_instrumented := ∅; calls := [] |}.

(** [nvbit_at_init], after the control variables have been read. *)
Definition nvbit_at_init : state :=
  if active_from_start cfg =? 0 then set_active_region false globals
  else globals.

(** The body of the loop over the instructions of a function. *)
Definition instrument_instr (i : Instr) : stmt :=
  if (getIdx i >=? instr_begin_interval cfg) && (getIdx i <? instr_end_interval cfg)
  then
    (if verbose cfg =? 1 then call (InstrPrint i)
     else if verbose cfg =? 2 then call (InstrPrintDecoded i)
     else skip) ;;
    (* indirect function calls *)
    (if (getOpcode i =? "CALL.ABS")%string && neq_npos (find (getSass i) "R")
     then
       call (nvbit_insert_call i "count_instrs" IPOINT_BEFORE) ;;
       (if truthy (exclude_pred_off cfg)
        then call (nvbit_add_call_arg_guard_pred_val i)
        else call (nvbit_add_call_arg_const_val32 i 1)) ;;
       call (nvbit_add_call_arg_const_val32 i (u32 (count_warp_level cfg))) ;;
       call (nvbit_add_call_arg_const_val64 i addr_indirect_counter)
     else skip) ;;
    (* __shfl_sync() *)
    (if (getOpcodeShort i =? "SHFL")%string
     then
       call (nvbit_insert_call i "count_instrs" IPOINT_BEFORE) ;;
       (if truthy (exclude_pred_off cfg)
        then call (nvbit_add_call_arg_guard_pred_val i)
        else call (nvbit_add_call_arg_const_val32 i 1)) ;;
       call (nvbit_add_call_arg_const_val32 i (u32 (count_warp_level cfg))) ;;
       call (nvbit_add_call_arg_const_val64 i addr_shfl_counter)
     else skip) ;;
    (* __ballot_sync() *)
    (if (getOpcode i =? "VOTE.BALL")%string
     then
       call (nvbit_insert_call i "count_instrs" IPOINT_BEFORE) ;;
       (if truthy (exclude_pred_off cfg)
        then call (nvbit_add_call_arg_guard_pred_val i)
        else call (nvbit_add_call_arg_const_val32 i 1)) ;;
       call (nvbit_add_call_arg_const_val32 i (u32 (count_warp_level cfg))) ;;
       call (nvbit_add_call_arg_const_val64 i addr_ballot_counter)
     else skip) ;;
    (* every instruction *)
    call (nvbit_insert_call i "count_instrs" IPOINT_BEFORE) ;;
    (if truthy (exclude_pred_off cfg)
     then call (nvbit_add_call_arg_guard_pred_val i)
     else call (nvbit_add_call_arg_const_val32 i 1)) ;;
    call (nvbit_add_call_arg_const_val32 i (u32 (count_warp_level cfg))) ;;
    call (nvbit_add_call_arg_const_val64 i addr_instr_counter)
  else skip.

(** The body of the loop over the related functions. *)
Definition instrument_one (ctx : CUcontext) (f : CUfunction) : stmt := fun st =>
  let (s, second) := unordered_set_insert f (already_instrumented st) in
  if negb second then st                                   (* continue *)
  else
    let st := set_already_instrumented s st in
    let instrs := nvbit_get_instrs ctx f in
    let st := call (GetInstrs ctx f) st in
    let st := if truthy (verbose cfg)
              then call (PrintfInspecting ctx f (length instrs)) st else st in
    foldl (fun st i => instrument_instr i st) st instrs.

Definition instrument_function_if_needed (ctx : CUcontext) (func : CUfunction) : stmt :=
  fun st =>
  let related_functions := nvbit_get_related_functions ctx func in
  let st := call (GetRelatedFunctions ctx func) st in
  let related_functions := related_functions ++ [func] in       (* push_back *)
  foldl (fun st f => instrument_one ctx f st) st related_functions.

End Tool.

(** ** The driver callback *)

#[global] Instance nvbit_api_cuda_t_eq_dec : EqDecision nvbit_api_cuda_t.
Proof. solve_decision. Defined.

#[global] Instance counter_addr_eq_dec : EqDecision counter_addr.
Proof. solve_decision. Defined.

(** [cbid == c] *)
Definition cbid_eq (cbid c : nvbit_api_cuda_t) : bool := bool_decide (cbid = c).

(** A callback returns, or never returns because it waits for a mutex that
    is not released, or ends the process. *)
Inductive outcome :=
| Returns (st : state)
| Blocks
| Aborts.

Definition cudaSuccess : Z := 0.

(** [printf("%ld", v)] of a [uint64_t]: the value read as a signed long. *)
Definition fmt_ld (v : Z) : string :=
  NilEmpty.string_of_int (Z.to_int (if v <? 2 ^ 63 then v else v - 2 ^ 64)).

Definition newline : string := String (ascii_of_nat 10) EmptyString.

Section Callback.

Variable nvbit_get_related_functions : CUcontext -> CUfunction -> list CUfunction.
Variable nvbit_get_instrs : CUcontext -> CUfunction -> list Instr.
Variable cfg : config.

(** [nvbit_at_cuda_event].  [f] is the [f] field of the launch parameters
    [params]; [sync] is what [cudaDeviceSynchronize] returns when the
    callback calls it.  [name] and [pStatus] are not read.

    Modelled from the spec: the macro [CUDA_SAFECALL] of utils/utils.h,
    which is not among the sources, ends the process when the call it
    wraps fails. *)
Definition nvbit_at_cuda_event (ctx : CUcontext) (is_exit : Z)
    (cbid : nvbit_api_cuda_t) (f : CUfunction) (sync : Z) (st : state) : outcome :=
  if cbid_eq cbid API_CUDA_cuLaunch || cbid_eq cbid API_CUDA_cuLaunchKernel_ptsz ||
     cbid_eq cbid API_CUDA_cuLaunchGrid || cbid_eq cbid API_CUDA_cuLaunchGridAsync ||
     cbid_eq cbid API_CUDA_cuLaunchKernel ||
     cbid_eq cbid API_CUDA_cuLaunchKernelEx ||
     cbid_eq cbid API_CUDA_cuLaunchKernelEx_ptsz
  then
    let func := f in
    if negb (truthy is_exit) then
      if mutex st then Blocks                       (* pthread_mutex_lock waits *)
      else
        let st := set_mutex true (call pthread_mutex_lock st) in
        let st :=
          instrument_function_if_needed nvbit_get_related_functions
            nvbit_get_instrs cfg ctx func st in
        let st :=
          if truthy (active_from_start cfg) then
            if (kernel_id st >=? start_grid_num cfg) && (kernel_id st <? end_grid_num cfg)
            then set_active_region true st
            else set_active_region false st
          else st in
        let st :=
          if active_region st
          then call (nvbit_enable_instrumented ctx func true) st
          else call (nvbit_enable_instrumented ctx func false) st in
        let st := set_instr_counter 0 st in
        let st := set_indirect_counter 0 st in
        let st := set_shfl_counter 0 st in
        let st := set_ballot_counter 0 st in
        Returns st
    else
      let st := call cudaDeviceSynchronize st in
      if negb (sync =? cudaSuccess) then Aborts
      else
        let st := set_total_instr (u64 (total_instr st + instr_counter st)) st in
        let st := set_total_indirect (u64 (total_indirect st + indirect_counter st)) st in
        let st := set_total_shfl (u64 (total_shfl st + shfl_counter st)) st in
        let st := set_total_ballot (u64 (total_ballot st + ballot_counter st)) st in
        let st := set_mutex false (call pthread_mutex_unlock st) in
        Returns st
  else if cbid_eq cbid API_CUDA_cuLaunchCooperativeKernel ||
          cbid_eq cbid API_CUDA_cuLaunchCooperativeKernel_ptsz ||
          cbid_eq cbid API_CUDA_cuLaunchCooperativeKernelMultiDevice
  then
    if truthy is_exit then Returns (set_total_cg (u64 (total_cg st + 1)) st)
    else Returns st
  else if cbid_eq cbid API_CUDA_cuProfilerStart && truthy is_exit then
    if negb (truthy (active_from_start cfg)) then Returns (set_active_region true st)
    else Returns st
  else if cbid_eq cbid API_CUDA_cuProfilerStop && truthy is_exit then
    if negb (truthy (active_from_start cfg)) then Returns (set_active_region false st)
    else Returns st
  else Returns st.

(** [nvbit_at_term]: the lines written to standard output. *)
Definition nvbit_at_term (st : state) : list string :=
  [ ("Total indirect function calls: " ++ fmt_ld (total_indirect st) ++ newline)%string;
    ("Total cooperative group kernel launches: " ++ fmt_ld (total_cg st) ++ newline)%string;
    (if count_warp_level cfg =? 1
     then ("Total instructions (warp level): " ++ fmt_ld (total_instr st) ++ newline)%string
     else ("Total instructions (thread level): " ++ fmt_ld (total_instr st) ++ newline)%string);
    ("Total __shfl_sync() calls: " ++ fmt_ld (total_shfl st) ++ newline)%string;
    ("Total __ballot_sync() calls: " ++ fmt_ld (total_ballot st) ++ newline)%string ].

(** *** Executions

    What happens to the tool over a run: the host delivers callbacks, and
    between them the device runs the kernel, whose probes write the
    managed counters. *)
Inductive event :=
| Callback (ctx : CUcontext) (is_exit : Z) (cbid : nvbit_api_cuda_t)
           (f : CUfunction) (sync : Z)
| DeviceCount (pcounter : counter_addr) (n : Z).

(** Modelled from the spec: the injected device function [count_instrs]
    (inject_funcs.cu, not among the sources) adds the number of counted
    warps or threads to the counter whose address the probe was given. *)
Definition count_instrs (pcounter : counter_addr) (n : Z) (st : state) : state :=
  match pcounter with
  | addr_instr_counter => set_instr_counter (u64 (instr_counter st + n)) st
  | addr_shfl_counter => set_shfl_counter (u64 (shfl_counter st + n)) st
  | addr_ballot_counter => set_ballot_counter (u64 (ballot_counter st + n)) st
  | addr_indirect_counter => set_indirect_counter (u64 (indirect_counter st + n)) st
  end.

Definition step (e : event) (st : state) : outcome :=
  match e with
  | Callback ctx is_exit cbid f sync => nvbit_at_cuda_event ctx is_exit cbid f sync st
  | DeviceCount pcounter n => Returns (count_instrs pcounter n st)
  end.

Fixpoint run (es : list event) (st : state) : outcome :=
  match es with
  | [] => Returns st
  | e :: es' =>
      match step e st with
      | Returns st' => run es' st'
      | Blocks => Blocks
      | Aborts => Aborts
      end
  end.

End Callback.


(** ** What a scan requests, stated apart from the code

    The classifier and the probe layout as the design describes them; the
    lemmas below relate them to [instrument_instr]. *)

(** Appending several calls to the log. *)
Definition emit (l : list api_call) (st : state) : state :=
  {| kernel_id := kernel_id st; total_instr := total_instr st; total_cg := total_cg st;
     total_indirect := total_indirect st; total_shfl := total_shfl st;
     total_ballot := total_ballot st; instr_counter := instr_counter st;
     shfl_counter := shfl_counter st; ballot_counter := ballot_counter st;
     indirect_counter := indirect_counter st; active_region := active_region st;
     mutex := mutex st; already_instrumented := already_instrumented st;
     calls := calls st ++ l |}.

(** [instr_begin <= instruction.index < instr_end] *)
Definition eligible (cfg : config) (i : Instr) : bool :=
  bool_decide (instr_begin_interval cfg <= getIdx i < instr_end_interval cfg).

Definition is_INDIRECT (i : Instr) : bool :=
  (getOpcode i =? "CALL.ABS")%string && neq_npos (find (getSass i) "R").
Definition is_SHUFFLE (i : Instr) : bool := (getOpcodeShort i =? "SHFL")%string.
Definition is_BALLOT (i : Instr) : bool := (getOpcode i =? "VOTE.BALL")%string.

(** The counters an eligible instruction is counted in: one per matched
    category, and the generic one. *)
Definition counters_of (i : Instr) : list counter_addr :=
  (if is_INDIRECT i then [addr_indirect_counter] else []) ++
  (if is_SHUFFLE i then [addr_shfl_counter] else []) ++
  (if is_BALLOT i then [addr_ballot_counter] else []) ++
  [addr_instr_counter].

Definition guard_call (cfg : config) (i : Instr) : api_call :=
  if truthy (exclude_pred_off cfg) then nvbit_add_call_arg_guard_pred_val i
  else nvbit_add_call_arg_const_val32 i 1.

(** The four calls that request one probe. *)
Definition probe (cfg : config) (i : Instr) (a : counter_addr) : list api_call :=
  [ nvbit_insert_call i "count_instrs" IPOINT_BEFORE;
    guard_call cfg i;
    nvbit_add_call_arg_const_val32 i (u32 (count_warp_level cfg));
    nvbit_add_call_arg_const_val64 i a ].

Definition printed (cfg : config) (i : Instr) : list api_call :=
  if verbose cfg =? 1 then [InstrPrint i]
  else if verbose cfg =? 2 then [InstrPrintDecoded i]
  else [].

Definition instr_log (cfg : config) (i : Instr) : list api_call :=
  if eligible cfg i then printed cfg i ++ flat_map (probe cfg i) (counters_of i)
  else [].

(** What the first visit of a function adds to the log. *)
Definition function_log (nvbit_get_instrs : CUcontext -> CUfunction -> list Instr)
    (cfg : config) (ctx : CUcontext) (f : CUfunction) : list api_call :=
  GetInstrs ctx f ::
  (if truthy (verbose cfg)
   then [PrintfInspecting ctx f (length (nvbit_get_instrs ctx f))] else []) ++
  flat_map (instr_log cfg) (nvbit_get_instrs ctx f).

Arguments function_log : simpl never.

(** *** Injected calls

    NVBit attaches each argument to the last call injected at the same
    instruction; [injected_calls] reads the log that way.  The accumulator
    holds the calls injected so far, the latest first. *)
Inductive call_arg :=
| arg_guard_pred_val
| arg_const_val32 (val : Z)
| arg_const_val64 (val : counter_addr).

Record injected_call := {
  ic_instr : Instr;
  ic_dev_func : string;
  ic_ipoint : ipoint_t;
  ic_args : list call_arg
}.

#[global] Instance Instr_eq_dec : EqDecision Instr.
Proof. solve_decision. Defined.

Fixpoint add_arg (i : Instr) (a : call_arg) (acc : list injected_call)
  : list injected_call :=
  match acc with
  | [] => []
  | c :: acc' =>
      if decide (ic_instr c = i)
      then {| ic_instr := ic_instr c; ic_dev_func := ic_dev_func c;
              ic_ipoint := ic_ipoint c; ic_args := ic_args c ++ [a] |} :: acc'
      else c :: add_arg i a acc'
  end.

Definition inject_step (acc : list injected_call) (c : api_call) : list injected_call :=
  match c with
  | nvbit_insert_call i dev_func ipoint =>
      {| ic_instr := i; ic_dev_func := dev_func; ic_ipoint := ipoint; ic_args := [] |} :: acc
  | nvbit_add_call_arg_guard_pred_val i => add_arg i arg_guard_pred_val acc
  | nvbit_add_call_arg_const_val32 i v => add_arg i (arg_const_val32 v) acc
  | nvbit_add_call_arg_const_val64 i a => add_arg i (arg_const_val64 a) acc
  | _ => acc
  end.

Definition injected_calls (log : list api_call) : list injected_call :=
  rev (foldl inject_step [] log).

(** The probe the design asks for: before the instruction, with the guard,
    the warp-level flag and the address of the counter, in this order. *)
Definition guard_arg (cfg : config) : call_arg :=
  if truthy (exclude_pred_off cfg) then arg_guard_pred_val else arg_const_val32 1.

Definition probe_request (cfg : config) (i : Instr) (a : counter_addr) : injected_call :=
  {| ic_instr := i; ic_dev_func := "count_instrs"; ic_ipoint := IPOINT_BEFORE;
     ic_args := [ guard_arg cfg;
                  arg_const_val32 (u32 (count_warp_level cfg));
                  arg_const_val64 a ] |}.

(** The number of categories an instruction matches. *)
Definition matched (i : Instr) : nat :=
  (if is_INDIRECT i then 1 else 0) + (if is_SHUFFLE i then 1 else 0) +
  (if is_BALLOT i then 1 else 0).

(** The calls that patch code. *)
Definition is_patch (c : api_call) : bool :=
  match c with
  | nvbit_insert_call _ _ _
  | nvbit_add_call_arg_guard_pred_val _
  | nvbit_add_call_arg_const_val32 _ _
  | nvbit_add_call_arg_const_val64 _ _ => true
  | _ => false
  end.

(** The calls made while a function is scanned. *)
Definition is_scan (c : api_call) : bool :=
  match c with
  | GetInstrs _ _ | PrintfInspecting _ _ _ | InstrPrint _ | InstrPrintDecoded _ => true
  | _ => is_patch c
  end.

(** The log entries added between two states. *)
Definition new_calls (st st' : state) : list api_call :=
  drop (length (calls st)) (calls st').

(** *** Exactly-once scanning

    [order] lists, with the context of their first visit, the functions
    scanned so far, each once; the scan calls of the log are the scans of
    these functions, one after the other. *)
Definition scanned_once (nvbit_get_instrs : CUcontext -> CUfunction -> list Instr)
    (cfg : config) (order : list (CUcontext * CUfunction)) (st : state) : Prop :=
  NoDup (order.*2) /\
  (forall f, f ∈ order.*2 <-> f ∈ already_instrumented st) /\
  filter is_scan (calls st) =
    flat_map (fun p => function_log nvbit_get_instrs cfg p.1 p.2) order.

(** Repeated invocations of the instrumentor. *)
Definition instrument_all (nvbit_get_related_functions : CUcontext -> CUfunction -> list CUfunction)
    (nvbit_get_instrs : CUcontext -> CUfunction -> list Instr) (cfg : config)
    (invs : list (CUcontext * CUfunction)) (st : state) : state :=
  foldl (fun st p =>
           instrument_function_if_needed nvbit_get_related_functions
             nvbit_get_instrs cfg p.1 p.2 st) st invs.

(** *** Kinds of callbacks *)

(** The launch entry points that the callback instruments and counts. *)
Definition is_launch (cbid : nvbit_api_cuda_t) : bool :=
  match cbid with
  | API_CUDA_cuLaunch | API_CUDA_cuLaunchKernel_ptsz | API_CUDA_cuLaunchGrid
  | API_CUDA_cuLaunchGridAsync | API_CUDA_cuLaunchKernel
  | API_CUDA_cuLaunchKernelEx | API_CUDA_cuLaunchKernelEx_ptsz => true
  | _ => false
  end.

(** The cooperative launch entry points. *)
Definition is_cooperative_launch (cbid : nvbit_api_cuda_t) : bool :=
  match cbid with
  | API_CUDA_cuLaunchCooperativeKernel | API_CUDA_cuLaunchCooperativeKernel_ptsz
  | API_CUDA_cuLaunchCooperativeKernelMultiDevice => true
  | _ => false
  end.

(** A callback for [cuProfilerStart] or [cuProfilerStop]. *)
Definition is_profiler_signal (e : event) : bool :=
  match e with
  | Callback _ _ API_CUDA_cuProfilerStart _ _
  | Callback _ _ API_CUDA_cuProfilerStop _ _ => true
  | _ => false
  end.

(** A callback of a cooperative launch. *)
Definition is_cooperative_callback (e : event) : bool :=
  match e with
  | Callback _ _ cbid _ _ => is_cooperative_launch cbid
  | DeviceCount _ _ => false
  end.

(** The cooperative launches that have returned. *)
Definition is_cooperative_exit (e : event) : bool :=
  match e with
  | Callback _ is_exit cbid _ _ => is_cooperative_launch cbid && truthy is_exit
  | DeviceCount _ _ => false
  end.

(** The same control variables with another launch interval. *)
Definition with_grid_interval (s e : Z) (cfg : config) : config :=
  {| instr_begin_interval := instr_begin_interval cfg;
     instr_end_interval := instr_end_interval cfg;
     start_grid_num := s; end_grid_num := e;
     verbose := verbose cfg; count_warp_level := count_warp_level cfg;
     exclude_pred_off := exclude_pred_off cfg;
     active_from_start := active_from_start cfg; mangled := mangled cfg |}.

#[global] Instance ipoint_t_eq_dec : EqDecision ipoint_t.
Proof. solve_decision. Defined.

#[global] Instance api_call_eq_dec : EqDecision api_call.
Proof. solve_decision. Defined.

(** The flags passed to [nvbit_enable_instrumented], in the order of the launches. *)
Definition enable_flags (log : list api_call) : list bool :=
  flat_map (fun c => match c with
                     | nvbit_enable_instrumented _ _ flag => [flag]
                     | _ => []
                     end) log.

(** ** A small program for the examples

    Kernel 1 calls the device function 2, which NVBit reports as related to
    kernel 1; function 3 is reported as related to 2.  Kernel 4 consists of
    ten plain instructions and calls nothing. *)
Module Demo.

Definition related (ctx f : N) : list N :=
  if (f =? 1)%N then [2%N] else if (f =? 2)%N then [3%N] else [].

Definition plain (idx : Z) : Instr :=
  {| getIdx := idx; getOpcode := "IADD"; getOpcodeShort := "IADD";
     getSass := "IADD R1, R2, R3 ;" |}.

Definition call_abs (idx : Z) : Instr :=
  {| getIdx := idx; getOpcode := "CALL.ABS"; getOpcodeShort := "CALL";
     getSass := "CALL.ABS R20 ;" |}.

Definition shfl (idx : Z) : Instr :=
  {| getIdx := idx; getOpcode := "SHFL.IDX"; getOpcodeShort := "SHFL";
     getSass := "SHFL.IDX PT, R0, R2, R3, 0x1f ;" |}.

Definition vote (idx : Z) : Instr :=
  {| getIdx := idx; getOpcode := "VOTE.BALL"; getOpcodeShort := "VOTE";
     getSass := "VOTE.BALL R0, PT ;" |}.

Definition instrs (ctx f : N) : list Instr :=
  if (f =? 1)%N then [plain 0; call_abs 1; plain 2]
  else if (f =? 2)%N then [shfl 0; plain 1]
  else if (f =? 3)%N then [vote 0]
  else if (f =? 4)%N then map plain [0; 1; 2; 3; 4; 5; 6; 7; 8; 9]
  else [].

(** One launch of [f] through [cuLaunchKernel]: entry, the device counting
    [counted] instructions, exit. *)
Definition launch (f : N) (counted : Z) : list event :=
  [ Callback 0 0 API_CUDA_cuLaunchKernel f cudaSuccess;
    DeviceCount addr_instr_counter counted;
    Callback 0 1 API_CUDA_cuLaunchKernel f cudaSuccess ].

Definition cooperative_launch (f : N) : list event :=
  [ Callback 0 0 API_CUDA_cuLaunchCooperativeKernel f cudaSuccess;
    Callback 0 1 API_CUDA_cuLaunchCooperativeKernel f cudaSuccess ].

Definition profiler_start : event := Callback 0 1 API_CUDA_cuProfilerStart 0 cudaSuccess.
Definition profiler_stop : event := Callback 0 1 API_CUDA_cuProfilerStop 0 cudaSuccess.

(** The state after kernel 1 has been instrumented once. *)
Definition st1 : state :=
  instrument_function_if_needed related instrs default_config 0 1
    (nvbit_at_init default_config).

End Demo.

(** Control variables with an empty instruction interval (begin after end). *)
Definition empty_interval_config : config :=
  {| instr_begin_interval := 5; instr_end_interval := 2;
     start_grid_num := 0; end_grid_num := UINT32_MAX;
     verbose := 0; count_warp_level := 1; exclude_pred_off := 0;
     active_from_start := 1; mangled := true |}.

(** Control variables for the region driven by the profiler callbacks. *)
Definition signal_driven_config : config :=
  {| instr_begin_interval := 0; instr_end_interval := UINT32_MAX;
     start_grid_num := 0; end_grid_num := UINT32_MAX;
     verbose := 0; count_warp_level := 1; exclude_pred_off := 0;
     active_from_start := 0; mangled := true |}.

(** Decidable facts about concrete states, by evaluation. *)
Ltac by_compute := apply (bool_decide_unpack _); vm_compute; exact I.

(** ** Further notions used to describe whole runs *)

(** The functions that a loop over [fs] records when [s] is the set recorded
    before it: each function outside [s], at its first occurrence. *)
Fixpoint fresh_functions (s : gset N) (fs : list CUfunction) : list CUfunction :=
  match fs with
  | [] => []
  | f :: fs' =>
      if bool_decide (f ∈ s) then fresh_functions s fs'
      else f :: fresh_functions ({[f]} ∪ s) fs'
  end.

(** The probes of one instruction and of one function, in the order of the
    instructions. *)
Definition probes_of_instr (cfg : config) (i : Instr) : list injected_call :=
  if eligible cfg i then map (probe_request cfg i) (counters_of i) else [].

Definition probes_of_function (nvbit_get_instrs : CUcontext -> CUfunction -> list Instr)
    (cfg : config) (ctx : CUcontext) (f : CUfunction) : list injected_call :=
  flat_map (probes_of_instr cfg) (nvbit_get_instrs ctx f).

(** Callbacks of the instrumented launch entry points. *)
Definition is_launch_callback (e : event) : bool :=
  match e with
  | Callback _ _ cbid _ _ => is_launch cbid
  | DeviceCount _ _ => false
  end.

Definition is_launch_entry (e : event) : bool :=
  match e with
  | Callback _ is_exit cbid _ _ => is_launch cbid && negb (truthy is_exit)
  | DeviceCount _ _ => false
  end.

(** What a profiler callback leaves in [active_region] when the region is
    driven by the profiler (only the exit phase counts), and the flags the
    launch entries of a run then pass to [nvbit_enable_instrumented]. *)
Definition signal_update (e : event) (active : bool) : bool :=
  match e with
  | Callback _ is_exit cbid _ _ =>
      if cbid_eq cbid API_CUDA_cuProfilerStart && truthy is_exit then true
      else if cbid_eq cbid API_CUDA_cuProfilerStop && truthy is_exit then false
      else active
  | DeviceCount _ _ => active
  end.

Fixpoint signal_flags (es : list event) (active : bool) : list bool :=
  match es with
  | [] => []
  | e :: es' =>
      (if is_launch_entry e then [active] else []) ++
      signal_flags es' (signal_update e active)
  end.

(** One launch as the host and the device see it: the entry callback, the
    values the kernel leaves in the four managed counters, the exit callback
    after a successful synchronisation. *)
Record launch := {
  launch_ctx : CUcontext;
  launch_cbid : nvbit_api_cuda_t;
  launch_f : CUfunction;
  counted_instr : Z;
  counted_indirect : Z;
  counted_shfl : Z;
  counted_ballot : Z
}.

Definition device_writes (l : launch) (st : state) : state :=
  set_ballot_counter (counted_ballot l)
    (set_shfl_counter (counted_shfl l)
       (set_indirect_counter (counted_indirect l)
          (set_instr_counter (counted_instr l) st))).

Definition launch_cycle
    (nvbit_get_related_functions : CUcontext -> CUfunction -> list CUfunction)
    (nvbit_get_instrs : CUcontext -> CUfunction -> list Instr) (cfg : config)
    (l : launch) (st : state) : outcome :=
  match nvbit_at_cuda_event nvbit_get_related_functions nvbit_get_instrs cfg
          (launch_ctx l) 0 (launch_cbid l) (launch_f l) cudaSuccess st with
  | Returns st1 =>
      nvbit_at_cuda_event nvbit_get_related_functions nvbit_get_instrs cfg
        (launch_ctx l) 1 (launch_cbid l) (launch_f l) cudaSuccess (device_writes l st1)
  | Blocks => Blocks
  | Aborts => Aborts
  end.

Fixpoint launch_cycles
    (nvbit_get_related_functions : CUcontext -> CUfunction -> list CUfunction)
    (nvbit_get_instrs : CUcontext -> CUfunction -> list Instr) (cfg : config)
    (ls : list launch) (st : state) : outcome :=
  match ls with
  | [] => Returns st
  | l :: ls' =>
      match launch_cycle nvbit_get_related_functions nvbit_get_instrs cfg l st with
      | Returns st' =>
          launch_cycles nvbit_get_related_functions nvbit_get_instrs cfg ls' st'
      | Blocks => Blocks
      | Aborts => Aborts
      end
  end.

Definition sum_list (l : list Z) : Z := foldr Z.add 0 l.

(** The four instruction totals as [uint64_t] values. *)
Definition uint64_totals (st : state) : Prop :=
  0 <= total_instr st < 2 ^ 64 /\ 0 <= total_indirect st < 2 ^ 64 /\
  0 <= total_shfl st < 2 ^ 64 /\ 0 <= total_ballot st < 2 ^ 64.

(** *** Diagnostics *)

(** The same control variables with another verbosity, or another setting
    of [MANGLED_NAMES]. *)
Definition with_verbose (v : Z) (cfg : config) : config :=
  {| instr_begin_interval := instr_begin_interval cfg;
     instr_end_interval := instr_end_interval cfg;
     start_grid_num := start_grid_num cfg; end_grid_num := end_grid_num cfg;
     verbose := v; count_warp_level := count_warp_level cfg;
     exclude_pred_off := exclude_pred_off cfg;
     active_from_start := active_from_start cfg; mangled := mangled cfg |}.

Definition with_mangled (b : bool) (cfg : config) : config :=
  {| instr_begin_interval := instr_begin_interval cfg;
     instr_end_interval := instr_end_interval cfg;
     start_grid_num := start_grid_num cfg; end_grid_num := end_grid_num cfg;
     verbose := verbose cfg; count_warp_level := count_warp_level cfg;
     exclude_pred_off := exclude_pred_off cfg;
     active_from_start := active_from_start cfg; mangled := b |}.

(** The calls that only print. *)
Definition is_print (c : api_call) : bool :=
  match c with
  | PrintfInspecting _ _ _ | InstrPrint _ | InstrPrintDecoded _ => true
  | _ => false
  end.

(** A log, a state and an outcome with the printing left out. *)
Definition silent (l : list api_call) : list api_call :=
  filter (fun c => negb (is_print c)) l.
Arguments silent : simpl never.

Definition set_calls (l : list api_call) (st : state) : state :=
  {| kernel_id := kernel_id st; total_instr := total_instr st; total_cg := total_cg st;
     total_indirect := total_indirect st; total_shfl := total_shfl st;
     total_ballot := total_ballot st; instr_counter := instr_counter st;
     shfl_counter := shfl_counter st; ballot_counter := ballot_counter st;
     indirect_counter := indirect_counter st; active_region := active_region st;
     mutex := mutex st; already_instrumented := already_instrumented st;
     calls := l |}.

Definition mute (st : state) : state := set_calls (silent (calls st)) st.

Definition mute_outcome (o : outcome) : outcome :=
  match o with
  | Returns st => Returns (mute st)
  | Blocks => Blocks
  | Aborts => Aborts
  end.

(** The five totals as [uint64_t] values. *)
Definition uint64_report (st : state) : Prop :=
  uint64_totals st /\ 0 <= total_cg st < 2 ^ 64.

(** The number a line of the report shows after its label: [None] when the
    line does not start with the label, does not end in a newline or shows
    no decimal numeral in between. *)
Fixpoint strip_prefix (label s : string) : option string :=
  match label, s with
  | EmptyString, _ => Some s
  | String a label', String b s' =>
      if Ascii.eqb a b then strip_prefix label' s' else None
  | String _ _, EmptyString => None
  end.

Fixpoint strip_newline (s : string) : option string :=
  match s with
  | EmptyString => None
  | String c EmptyString => if Ascii.eqb c (ascii_of_nat 10) then Some EmptyString else None
  | String c s' => option_map (String c) (strip_newline s')
  end.

Definition read_line (label line : string) : option Z :=
  match strip_prefix label line with
  | Some rest =>
      match strip_newline rest with
      | Some digits => option_map Z.of_int (NilEmpty.int_of_string digits)
      | None => None
      end
  | None => None
  end.

(** A [uint64_t] read as a signed long. *)
Definition as_long (v : Z) : Z := if v <? 2 ^ 63 then v else v - 2 ^ 64.

(** * Properties *)

(** ** The log only grows *)

Lemma emit_nil st : emit [] st = st.
Proof. unfold emit. rewrite app_nil_r. reflexivity. Qed.

Lemma emit_app l1 l2 st : emit l2 (emit l1 st) = emit (l1 ++ l2) st.
Proof. unfold emit; cbn. rewrite <- app_assoc. reflexivity. Qed.

Lemma call_emit c st : call c st = emit [c] st.
Proof. reflexivity. Qed.

Lemma new_calls_emit l st : new_calls st (emit l st) = l.
Proof. unfold new_calls, emit; cbn. apply drop_app_length. Qed.

Lemma eligible_code cfg i :
  (getIdx i >=? instr_begin_interval cfg) && (getIdx i <? instr_end_interval cfg)
  = eligible cfg i.
Proof.
  unfold eligible. case_bool_decide as H.
  - apply andb_true_iff. split; [apply Z.geb_le | apply Z.ltb_lt]; lia.
  - apply andb_false_iff.
    destruct (Z_lt_dec (getIdx i) (instr_begin_interval cfg)).
    + left. rewrite Z.geb_leb. apply Z.leb_gt. lia.
    + right. apply Z.ltb_ge. lia.
Qed.

(** The loop body for one instruction adds exactly [instr_log] to the log and
    touches nothing else. *)
Lemma instrument_instr_emit cfg i st :
  instrument_instr cfg i st = emit (instr_log cfg i) st.
Proof.
  unfold instrument_instr, instr_log. rewrite eligible_code.
  destruct (eligible cfg i); [|symmetry; apply emit_nil].
  unfold counters_of, printed, probe, guard_call, is_INDIRECT, is_SHUFFLE, is_BALLOT, seq, skip.
  destruct (verbose cfg =? 1), (verbose cfg =? 2),
    ((getOpcode i =? "CALL.ABS")%string && neq_npos (find (getSass i) "R")),
    (getOpcodeShort i =? "SHFL")%string, (getOpcode i =? "VOTE.BALL")%string,
    (truthy (exclude_pred_off cfg));
    rewrite ?call_emit, ?emit_app; reflexivity.
Qed.

(** ** One instruction *)

Section OneInstruction.

Variable cfg : config.

(** [find] of a one-character pattern succeeds exactly on the strings that
    contain the character. *)
Lemma find_char (c : ascii) (s : string) :
  neq_npos (find s (String c EmptyString)) = true
  <-> exists pre suf, s = (pre ++ String c suf)%string.
Proof.
  unfold find. induction s as [|b s IH].
  - cbn. split; [discriminate|]. intros (pre & suf & H). by destruct pre.
  - cbn [String.index String.prefix]. destruct (ascii_dec c b) as [->|Hne].
    + replace (String.prefix EmptyString s) with true by (by destruct s).
      cbn. split; [|done]. intros _. by exists EmptyString, s.
    + split.
      * destruct (String.index 0 (String c EmptyString) s) as [n|]; [|discriminate].
        intros _. destruct (proj1 IH eq_refl) as (pre & suf & ->).
        by exists (String b pre), suf.
      * intros (pre & suf & H). destruct pre as [|b' pre]; cbn in H.
        { injection H as H _. congruence. }
        injection H as _ H.
        destruct (String.index 0 (String c EmptyString) s) as [n|]; [done|].
        apply IH. eauto.
Qed.

Lemma is_INDIRECT_spec (i : Instr) :
  is_INDIRECT i = true
  <-> getOpcode i = "CALL.ABS"%string /\
      exists pre suf, getSass i = (pre ++ "R" ++ suf)%string.
Proof.
  unfold is_INDIRECT. rewrite andb_true_iff, String.eqb_eq, find_char. done.
Qed.

(** The calls of one probe are read back as one injected call with its
    three arguments. *)
Lemma inject_probe acc i a :
  foldl inject_step acc (probe cfg i a) = probe_request cfg i a :: acc.
Proof.
  unfold probe, probe_request, guard_call, guard_arg.
  destruct (truthy (exclude_pred_off cfg)); cbn;
    repeat (rewrite decide_True by done; cbn); reflexivity.
Qed.

Lemma inject_probes acc i cs :
  foldl inject_step acc (flat_map (probe cfg i) cs)
  = rev (map (probe_request cfg i) cs) ++ acc.
Proof.
  revert acc. induction cs as [|a cs IH]; intros acc; [done|].
  cbn [flat_map map rev]. rewrite foldl_app, inject_probe, IH, <- app_assoc. done.
Qed.

Lemma inject_printed acc i : foldl inject_step acc (printed cfg i) = acc.
Proof. unfold printed. by destruct (verbose cfg =? 1), (verbose cfg =? 2). Qed.

Lemma injected_calls_instr_log i :
  injected_calls (instr_log cfg i)
  = if eligible cfg i then map (probe_request cfg i) (counters_of i) else [].
Proof.
  unfold injected_calls, instr_log. destruct (eligible cfg i); [|done].
  rewrite foldl_app, inject_printed, inject_probes, app_nil_r. apply rev_involutive.
Qed.

Lemma counters_of_NoDup i : NoDup (counters_of i).
Proof.
  unfold counters_of.
  destruct (is_INDIRECT i), (is_SHUFFLE i), (is_BALLOT i); cbn;
    repeat (apply NoDup_cons; split; [set_solver|]); apply NoDup_nil_2.
Qed.

Lemma counters_of_length i : length (counters_of i) = (1 + matched i)%nat.
Proof.
  unfold counters_of, matched.
  by destruct (is_INDIRECT i), (is_SHUFFLE i), (is_BALLOT i).
Qed.

Lemma matched_le_3 i : (matched i <= 3)%nat.
Proof.
  unfold matched. destruct (is_INDIRECT i), (is_SHUFFLE i), (is_BALLOT i); cbn; lia.
Qed.

(** The opcode cannot be both "CALL.ABS" and "VOTE.BALL": an instruction
    matches at most two categories. *)
Lemma indirect_excludes_ballot i : is_INDIRECT i = true -> is_BALLOT i = false.
Proof.
  unfold is_INDIRECT, is_BALLOT. intros [Hop _]%andb_true_iff.
  apply String.eqb_eq in Hop. by rewrite Hop.
Qed.

Lemma matched_le_2 i : (matched i <= 2)%nat.
Proof.
  unfold matched. pose proof (indirect_excludes_ballot i).
  destruct (is_INDIRECT i), (is_SHUFFLE i), (is_BALLOT i); cbn; try lia;
    by discriminate H.
Qed.

Lemma counters_of_indirect i :
  addr_indirect_counter ∈ counters_of i <-> is_INDIRECT i = true.
Proof.
  unfold counters_of.
  destruct (is_INDIRECT i), (is_SHUFFLE i), (is_BALLOT i); cbn; set_solver.
Qed.

Lemma counters_of_shfl i :
  addr_shfl_counter ∈ counters_of i <-> is_SHUFFLE i = true.
Proof.
  unfold counters_of.
  destruct (is_INDIRECT i), (is_SHUFFLE i), (is_BALLOT i); cbn; set_solver.
Qed.

Lemma counters_of_ballot i :
  addr_ballot_counter ∈ counters_of i <-> is_BALLOT i = true.
Proof.
  unfold counters_of.
  destruct (is_INDIRECT i), (is_SHUFFLE i), (is_BALLOT i); cbn; set_solver.
Qed.

Lemma counters_of_generic i : addr_instr_counter ∈ counters_of i.
Proof. unfold counters_of. set_solver. Qed.

End OneInstruction.

(** ** The instrumentor *)

Section Instrumentor.

Variable nvbit_get_instrs : CUcontext -> CUfunction -> list Instr.
Variable cfg : config.

Local Abbreviation visit := (instrument_one nvbit_get_instrs cfg).
Local Abbreviation scan := (function_log nvbit_get_instrs cfg).

Lemma foldl_instrument_instr l st :
  foldl (fun st i => instrument_instr cfg i st) st l
  = emit (flat_map (instr_log cfg) l) st.
Proof.
  revert st. induction l as [|i l IH]; intros st; cbn.
  - symmetry; apply emit_nil.
  - rewrite IH, instrument_instr_emit, emit_app. reflexivity.
Qed.

(** A function already recorded: the insertion fails and the body is skipped. *)
Lemma instrument_one_seen ctx f st :
  f ∈ already_instrumented st -> visit ctx f st = st.
Proof.
  intros Hin. unfold instrument_one, unordered_set_insert.
  rewrite bool_decide_eq_true_2 by done. reflexivity.
Qed.

(** A function not yet recorded: it is recorded and scanned. *)
Lemma instrument_one_fresh ctx f st :
  f ∉ already_instrumented st ->
  visit ctx f st
  = emit (scan ctx f)
      (set_already_instrumented ({[f]} ∪ already_instrumented st) st).
Proof.
  intros Hnin. unfold instrument_one, unordered_set_insert.
  rewrite bool_decide_eq_false_2 by done. cbn.
  rewrite foldl_instrument_instr. unfold function_log.
  destruct (truthy (verbose cfg)); rewrite ?call_emit, ?emit_app; reflexivity.
Qed.

Lemma instrument_one_cases ctx f st :
  ((f ∈ already_instrumented st) /\ visit ctx f st = st) \/
  ((f ∉ already_instrumented st) /\
   visit ctx f st
   = emit (scan ctx f)
       (set_already_instrumented ({[f]} ∪ already_instrumented st) st)).
Proof.
  destruct (decide (f ∈ already_instrumented st)) as [H|H].
  - left. split; [done | by apply instrument_one_seen].
  - right. split; [done | by apply instrument_one_fresh].
Qed.

(** The set of recorded functions only grows, and contains the function
    just visited. *)
Lemma instrument_one_mono ctx f st g :
  g ∈ already_instrumented st -> g ∈ already_instrumented (visit ctx f st).
Proof.
  intros Hg. destruct (instrument_one_cases ctx f st) as [[_ ->]|[_ ->]]; cbn; set_solver.
Qed.

Lemma instrument_one_records ctx f st :
  f ∈ already_instrumented (visit ctx f st).
Proof.
  destruct (instrument_one_cases ctx f st) as [[? ->]|[_ ->]]; cbn; set_solver.
Qed.

Lemma foldl_instrument_one_mono ctx fs st g :
  g ∈ already_instrumented st ->
  g ∈ already_instrumented (foldl (fun st f => visit ctx f st) st fs).
Proof.
  revert st. induction fs as [|f fs IH]; intros st Hg; cbn; [done|].
  apply IH. by apply instrument_one_mono.
Qed.

Lemma foldl_instrument_one_records ctx fs st g :
  g ∈ fs ->
  g ∈ already_instrumented (foldl (fun st f => visit ctx f st) st fs).
Proof.
  revert st. induction fs as [|f fs IH]; intros st Hg; cbn.
  - by apply elem_of_nil in Hg.
  - apply elem_of_cons in Hg as [->|Hg].
    + apply foldl_instrument_one_mono, instrument_one_records.
    + by apply IH.
Qed.

(** Visiting functions that are all recorded changes nothing. *)
Lemma foldl_instrument_one_seen ctx fs st :
  (forall g, g ∈ fs -> g ∈ already_instrumented st) ->
  foldl (fun st f => visit ctx f st) st fs = st.
Proof.
  induction fs as [|f fs IH]; intros Hall; cbn; [done|].
  rewrite instrument_one_seen by (apply Hall; left).
  apply IH. intros g Hg. apply Hall. by right.
Qed.

(** *** Every function is scanned exactly once *)

Lemma filter_all_true {A} (p : A -> bool) (l : list A) :
  Forall (fun x => p x = true) l -> filter p l = l.
Proof.
  induction 1 as [|x l Hx _ IH]; [done|].
  rewrite filter_cons_True by (by rewrite Hx). by rewrite IH.
Qed.

Lemma filter_all_false {A} (p : A -> bool) (l : list A) :
  Forall (fun x => p x = false) l -> filter p l = [].
Proof.
  induction 1 as [|x l Hx _ IH]; [done|].
  rewrite filter_cons_False by (rewrite Hx; cbn; tauto). done.
Qed.

Lemma probe_is_patch i a : Forall (fun c => is_patch c = true) (probe cfg i a).
Proof.
  unfold probe, guard_call. destruct (truthy (exclude_pred_off cfg));
    repeat constructor.
Qed.

Lemma instr_log_is_scan i : Forall (fun c => is_scan c = true) (instr_log cfg i).
Proof.
  unfold instr_log. destruct (eligible cfg i); [|constructor].
  apply Forall_app. split.
  - unfold printed. destruct (verbose cfg =? 1), (verbose cfg =? 2); repeat constructor.
  - apply Forall_flat_map, Forall_forall. intros a _.
    eapply Forall_impl; [apply probe_is_patch|].
    intros c Hc. destruct c; cbn in *; congruence.
Qed.

Lemma function_log_is_scan ctx f : Forall (fun c => is_scan c = true) (scan ctx f).
Proof.
  unfold function_log. constructor; [done|].
  apply Forall_app. split.
  - destruct (truthy (verbose cfg)); repeat constructor.
  - apply Forall_flat_map, Forall_forall. intros i _. apply instr_log_is_scan.
Qed.

Lemma visit_scanned_once ctx f order st :
  scanned_once nvbit_get_instrs cfg order st ->
  exists order', scanned_once nvbit_get_instrs cfg order' (visit ctx f st).
Proof.
  intros (Hnd & Hset & Hlog).
  destruct (instrument_one_cases ctx f st) as [[Hin ->]|[Hnin ->]].
  - exists order. done.
  - exists (order ++ [(ctx, f)]). unfold scanned_once; cbn.
    rewrite fmap_app, filter_app, flat_map_app; cbn.
    rewrite (filter_all_true _ _ (function_log_is_scan ctx f)), app_nil_r, Hlog.
    split_and!; [| |done].
    2:{ intros g. rewrite elem_of_app, list_elem_of_singleton, elem_of_union,
          elem_of_singleton, Hset. tauto. }
    apply NoDup_app. split_and!; [done| |apply NoDup_singleton].
    intros g Hg ->%list_elem_of_singleton. by apply Hnin, Hset.
Qed.

Lemma foldl_visit_scanned_once ctx fs order st :
  scanned_once nvbit_get_instrs cfg order st ->
  exists order',
    scanned_once nvbit_get_instrs cfg order'
      (foldl (fun st f => visit ctx f st) st fs).
Proof.
  revert order st. induction fs as [|f fs IH]; intros order st H; cbn.
  - by exists order.
  - destruct (visit_scanned_once ctx f order st H) as [order' H']. eauto.
Qed.

Lemma scanned_once_ext order st st' :
  already_instrumented st' = already_instrumented st ->
  filter is_scan (calls st') = filter is_scan (calls st) ->
  scanned_once nvbit_get_instrs cfg order st ->
  scanned_once nvbit_get_instrs cfg order st'.
Proof. unfold scanned_once. intros -> ->. done. Qed.

Lemma scanned_once_init : scanned_once nvbit_get_instrs cfg [] (nvbit_at_init cfg).
Proof using Type.
  unfold scanned_once, nvbit_at_init.
  destruct (active_from_start cfg =? 0); cbn;
    (split; [apply NoDup_nil_2 | split; [|done]]);
    intros f; by rewrite elem_of_nil, elem_of_empty.
Qed.

(** *** What one invocation does, exactly

    Of the functions visited, those not yet recorded are recorded and
    scanned, in the order of their first occurrence; the others are
    passed over. *)
Lemma foldl_visit_exact ctx fs st :
  exists news,
    foldl (fun st f => visit ctx f st) st fs
    = emit (flat_map (scan ctx) news)
        (set_already_instrumented (list_to_set news ∪ already_instrumented st) st)
    /\ NoDup news
    /\ forall g, g ∈ news <-> (g ∈ fs) /\ (g ∉ already_instrumented st).
Proof.
  revert st. induction fs as [|f fs IH]; intros st; cbn [foldl].
  - exists []. split_and!.
    + cbn [flat_map]. rewrite emit_nil.
      replace (list_to_set [] ∪ already_instrumented st)
        with (already_instrumented st) by set_solver.
      reflexivity.
    + apply NoDup_nil_2.
    + intros g. rewrite elem_of_nil. set_solver.
  - destruct (instrument_one_cases ctx f st) as [[Hin ->]|[Hnin ->]].
    + destruct (IH st) as (news & -> & Hnd & Hnews). exists news. split_and!; [done..|].
      intros g. rewrite Hnews, elem_of_cons. split; [tauto|].
      intros [[->|?] ?]; tauto.
    + destruct (IH (emit (scan ctx f)
                     (set_already_instrumented ({[f]} ∪ already_instrumented st) st)))
        as (news & -> & Hnd & Hnews).
      cbn in Hnews. exists (f :: news). split_and!.
      * unfold emit, set_already_instrumented; cbn. rewrite <- app_assoc.
        f_equal. set_solver.
      * apply NoDup_cons. split; [|done]. rewrite Hnews. set_solver.
      * intros g. rewrite !elem_of_cons, Hnews.
        rewrite not_elem_of_union, not_elem_of_singleton.
        destruct (decide (g = f)) as [->|]; tauto.
Qed.

(** Only the scan of [f] fetches the instructions of [f]. *)
Lemma GetInstrs_in_instr_log ctx' g i : GetInstrs ctx' g ∉ instr_log cfg i.
Proof.
  intros Hin. pose proof (instr_log_is_scan i) as Hall.
  unfold instr_log in *. destruct (eligible cfg i); [|by apply elem_of_nil in Hin].
  apply elem_of_app in Hin as [Hin|Hin].
  - unfold printed in Hin.
    destruct (verbose cfg =? 1), (verbose cfg =? 2); set_solver.
  - apply list_elem_of_In, in_flat_map in Hin as (a & _ & Hin).
    unfold probe, guard_call in Hin. destruct (truthy (exclude_pred_off cfg));
      cbn in Hin; intuition discriminate.
Qed.

Lemma GetInstrs_in_scan ctx' g ctx f :
  GetInstrs ctx' g ∈ scan ctx f -> g = f.
Proof.
  unfold function_log. rewrite elem_of_cons, elem_of_app.
  intros [[= _ ->]|[Hin|Hin]]; [done| |].
  - destruct (truthy (verbose cfg)); set_solver.
  - apply list_elem_of_In, in_flat_map in Hin as (i & _ & Hin).
    apply list_elem_of_In in Hin. by apply GetInstrs_in_instr_log in Hin.
Qed.

Section Related.

Variable nvbit_get_related_functions : CUcontext -> CUfunction -> list CUfunction.

Local Abbreviation instrument :=
  (instrument_function_if_needed nvbit_get_related_functions nvbit_get_instrs cfg).

Lemma instrument_scanned_once ctx func order st :
  scanned_once nvbit_get_instrs cfg order st ->
  exists order', scanned_once nvbit_get_instrs cfg order' (instrument ctx func st).
Proof.
  intros H. unfold instrument_function_if_needed.
  apply foldl_visit_scanned_once with (order := order).
  eapply scanned_once_ext; [| |exact H]; [done|].
  cbn. rewrite filter_app. cbn. by rewrite app_nil_r.
Qed.

Lemma instrument_all_scanned_once invs order st :
  scanned_once nvbit_get_instrs cfg order st ->
  exists order',
    scanned_once nvbit_get_instrs cfg order'
      (instrument_all nvbit_get_related_functions nvbit_get_instrs cfg invs st).
Proof.
  revert order st. induction invs as [|[ctx f] invs IH]; intros order st H; cbn.
  - by exists order.
  - destruct (instrument_scanned_once ctx f order st H) as [order' H']. eauto.
Qed.

(** Once invoked with [func], the instrumentor has recorded [func] and its
    related functions; invoking it again only repeats the query. *)
Lemma instrument_records ctx func st g :
  g ∈ nvbit_get_related_functions ctx func ++ [func] ->
  g ∈ already_instrumented (instrument ctx func st).
Proof. intros Hg. by apply foldl_instrument_one_records. Qed.

Lemma instrument_again ctx func st :
  instrument ctx func (instrument ctx func st)
  = call (GetRelatedFunctions ctx func) (instrument ctx func st).
Proof.
  set (st1 := instrument ctx func st).
  unfold instrument_function_if_needed at 1.
  apply foldl_instrument_one_seen. intros g Hg. cbn.
  by apply instrument_records.
Qed.

End Related.

End Instrumentor.

(** ** The callback *)

Section CallbackFacts.

Variable nvbit_get_related_functions : CUcontext -> CUfunction -> list CUfunction.
Variable nvbit_get_instrs : CUcontext -> CUfunction -> list Instr.
Variable cfg : config.

Local Abbreviation visit := (instrument_one nvbit_get_instrs cfg).
Local Abbreviation instrument :=
  (instrument_function_if_needed nvbit_get_related_functions nvbit_get_instrs cfg).
Local Abbreviation handler :=
  (nvbit_at_cuda_event nvbit_get_related_functions nvbit_get_instrs cfg).
Local Abbreviation exec := (run nvbit_get_related_functions nvbit_get_instrs cfg).
Local Abbreviation exec1 := (step nvbit_get_related_functions nvbit_get_instrs cfg).

(** The instrumentor changes the set of recorded functions and the log,
    nothing else. *)
Lemma foldl_visit_shape ctx fs st :
  exists s l,
    foldl (fun st f => visit ctx f st) st fs = emit l (set_already_instrumented s st).
Proof.
  revert st. induction fs as [|f fs IH]; intros st; cbn.
  - exists (already_instrumented st), []. by rewrite emit_nil.
  - destruct (IH (visit ctx f st)) as (s & l & ->).
    destruct (instrument_one_cases nvbit_get_instrs cfg ctx f st) as [[_ ->]|[_ ->]].
    + by exists s, l.
    + exists s, (function_log nvbit_get_instrs cfg ctx f ++ l).
      unfold emit, set_already_instrumented; cbn. by rewrite <- app_assoc.
Qed.

Lemma instrument_shape ctx func st :
  exists s l, instrument ctx func st = emit l (set_already_instrumented s st).
Proof.
  unfold instrument_function_if_needed.
  destruct (foldl_visit_shape ctx (nvbit_get_related_functions ctx func ++ [func])
              (call (GetRelatedFunctions ctx func) st)) as (s & l & ->).
  exists s, (GetRelatedFunctions ctx func :: l).
  unfold emit, set_already_instrumented, call; cbn. by rewrite <- app_assoc.
Qed.

Lemma handler_launch cbid :
  is_launch cbid = true ->
  cbid_eq cbid API_CUDA_cuLaunch || cbid_eq cbid API_CUDA_cuLaunchKernel_ptsz ||
  cbid_eq cbid API_CUDA_cuLaunchGrid || cbid_eq cbid API_CUDA_cuLaunchGridAsync ||
  cbid_eq cbid API_CUDA_cuLaunchKernel ||
  cbid_eq cbid API_CUDA_cuLaunchKernelEx ||
  cbid_eq cbid API_CUDA_cuLaunchKernelEx_ptsz = true.
Proof. by destruct cbid. Qed.

Lemma handler_not_launch cbid :
  is_launch cbid = false ->
  cbid_eq cbid API_CUDA_cuLaunch || cbid_eq cbid API_CUDA_cuLaunchKernel_ptsz ||
  cbid_eq cbid API_CUDA_cuLaunchGrid || cbid_eq cbid API_CUDA_cuLaunchGridAsync ||
  cbid_eq cbid API_CUDA_cuLaunchKernel ||
  cbid_eq cbid API_CUDA_cuLaunchKernelEx ||
  cbid_eq cbid API_CUDA_cuLaunchKernelEx_ptsz = false.
Proof. by destruct cbid. Qed.

(** A cooperative launch: nothing at entry, one more in [total_cg] at exit. *)
Lemma handler_cooperative ctx is_exit cbid f sync st :
  is_cooperative_launch cbid = true ->
  handler ctx is_exit cbid f sync st
  = Returns (if truthy is_exit then set_total_cg (u64 (total_cg st + 1)) st else st).
Proof.
  intros H. unfold nvbit_at_cuda_event.
  destruct cbid; try discriminate H; cbn; by destruct (truthy is_exit).
Qed.

(** The launch index is assigned nowhere. *)
Lemma handler_kernel_id ctx is_exit cbid f sync st st' :
  handler ctx is_exit cbid f sync st = Returns st' -> kernel_id st' = kernel_id st.
Proof.
  unfold nvbit_at_cuda_event.
  destruct (instrument_shape ctx f (set_mutex true (call pthread_mutex_lock st)))
    as (s & l & ->).
  repeat match goal with
         | |- context [if ?b then _ else _] => destruct b; cbn
         end; intros [= <-]; reflexivity.
Qed.

Lemma step_kernel_id e st st' :
  exec1 e st = Returns st' -> kernel_id st' = kernel_id st.
Proof.
  destruct e as [ctx is_exit cbid f sync|a n]; cbn.
  - apply handler_kernel_id.
  - intros [= <-]. by destruct a.
Qed.

Lemma run_kernel_id es st st' :
  exec es st = Returns st' -> kernel_id st' = kernel_id st.
Proof.
  revert st. induction es as [|e es IH]; intros st; cbn.
  - by intros [= <-].
  - destruct (exec1 e st) as [st1| |] eqn:He; try discriminate.
    intros H. rewrite (IH _ H). by eapply step_kernel_id.
Qed.

(** *** Cooperative launches *)

Lemma u64_idem a b : u64 (u64 a + b) = u64 (a + b).
Proof. unfold u64. apply Zplus_mod_idemp_l. Qed.

Lemma u64_small a : 0 <= a < 2 ^ 64 -> u64 a = a.
Proof. unfold u64. apply Z.mod_small. Qed.

Lemma u64_range a : 0 <= u64 a < 2 ^ 64.
Proof. unfold u64. apply Z.mod_pos_bound. lia. Qed.

Lemma run_cooperative es st :
  Forall (fun e => is_cooperative_callback e = true) es ->
  0 <= total_cg st < 2 ^ 64 ->
  exists st',
    exec es st = Returns st' /\
    total_cg st' = u64 (total_cg st + Z.of_nat (length (filter is_cooperative_exit es))) /\
    total_instr st' = total_instr st /\
    total_indirect st' = total_indirect st /\
    total_shfl st' = total_shfl st /\
    total_ballot st' = total_ballot st.
Proof.
  intros Hes. revert st. induction Hes as [|e es He _ IH]; intros st Hrange.
  - cbn. exists st. rewrite Z.add_0_r, u64_small by done. done.
  - destruct e as [ctx is_exit cbid f sync|a n]; [|discriminate He].
    cbn in He. cbn [run step]. rewrite handler_cooperative by done.
    destruct (truthy is_exit) eqn:Hexit.
    + destruct (IH (set_total_cg (u64 (total_cg st + 1)) st)) as (st' & -> & Hcg & Hrest).
      { cbn. apply u64_range. }
      exists st'. split; [done|]. split; [|exact Hrest].
      rewrite Hcg. cbn [total_cg set_total_cg].
      rewrite filter_cons_True by (cbn; rewrite He, Hexit; done). cbn [length].
      rewrite u64_idem. f_equal. lia.
    + destruct (IH st Hrange) as (st' & -> & Hcg & Hrest).
      exists st'. split; [done|]. split; [|exact Hrest].
      rewrite filter_cons_False by (cbn; rewrite He, Hexit; cbn; tauto). exact Hcg.
Qed.

(** *** The two region modes *)

(** With [ACTIVE_FROM_START] set, the profiler callbacks change nothing. *)
Lemma handler_profiler_ignored ctx is_exit cbid f sync st :
  active_from_start cfg <> 0 ->
  cbid = API_CUDA_cuProfilerStart \/ cbid = API_CUDA_cuProfilerStop ->
  handler ctx is_exit cbid f sync st = Returns st.
Proof.
  intros Hafs Hcbid.
  assert (Ht : truthy (active_from_start cfg) = true).
  { unfold truthy. apply Z.eqb_neq in Hafs. by rewrite Hafs. }
  unfold nvbit_at_cuda_event.
  destruct Hcbid as [-> | ->]; cbn; rewrite ?Ht; by destruct (truthy is_exit).
Qed.

Lemma run_profiler_ignored es st :
  active_from_start cfg <> 0 ->
  exec es st = exec (filter (fun e => negb (is_profiler_signal e)) es) st.
Proof.
  intros Hafs. revert st. induction es as [|e es IH]; intros st; [done|].
  destruct (is_profiler_signal e) eqn:He.
  - rewrite filter_cons_False by (rewrite He; cbn; tauto).
    rewrite <- IH. destruct e as [ctx is_exit cbid f sync|]; [|discriminate He].
    cbn [run step]. rewrite handler_profiler_ignored; [done..|].
    destruct cbid; try discriminate He; auto.
  - rewrite filter_cons_True by (by rewrite He).
    cbn [run]. destruct (exec1 e st); auto.
Qed.

(** Without it, the launch interval is not read. *)
Lemma handler_grid_ignored s e ctx is_exit cbid f sync st :
  active_from_start cfg = 0 ->
  nvbit_at_cuda_event nvbit_get_related_functions nvbit_get_instrs
    (with_grid_interval s e cfg) ctx is_exit cbid f sync st
  = handler ctx is_exit cbid f sync st.
Proof.
  intros Hafs. unfold nvbit_at_cuda_event.
  cbn [active_from_start with_grid_interval]. rewrite Hafs. reflexivity.
Qed.

Lemma run_grid_ignored s e es st :
  active_from_start cfg = 0 ->
  run nvbit_get_related_functions nvbit_get_instrs (with_grid_interval s e cfg) es st
  = exec es st.
Proof.
  intros Hafs. revert st. induction es as [|ev es IH]; intros st; [done|].
  cbn [run]. destruct ev as [ctx is_exit cbid f sync|a n]; cbn [step].
  - rewrite handler_grid_ignored by done.
    destruct (handler ctx is_exit cbid f sync st); auto.
  - apply IH.
Qed.

(** *** What a run adds to the log

    Whatever holds of the calls of every scan and of every call that is
    not part of a scan holds of all that a run appends to the log. *)
Section LogExtension.

Variable P : api_call -> Prop.
Hypothesis P_scan : forall ctx f, Forall P (function_log nvbit_get_instrs cfg ctx f).
Hypothesis P_other : forall c, is_scan c = false -> P c.

Lemma foldl_visit_log ctx fs st :
  exists s l,
    foldl (fun st f => visit ctx f st) st fs = emit l (set_already_instrumented s st)
    /\ Forall P l.
Proof.
  revert st. induction fs as [|f fs IH]; intros st; cbn.
  - exists (already_instrumented st), []. by rewrite emit_nil.
  - destruct (IH (visit ctx f st)) as (s & l & -> & Hl).
    destruct (instrument_one_cases nvbit_get_instrs cfg ctx f st) as [[_ ->]|[_ ->]].
    + by exists s, l.
    + exists s, (function_log nvbit_get_instrs cfg ctx f ++ l). split.
      * unfold emit, set_already_instrumented; cbn. by rewrite <- app_assoc.
      * apply Forall_app. split; [apply P_scan | exact Hl].
Qed.

Lemma instrument_log ctx func st :
  exists s l,
    instrument ctx func st = emit l (set_already_instrumented s st) /\ Forall P l.
Proof.
  unfold instrument_function_if_needed.
  destruct (foldl_visit_log ctx (nvbit_get_related_functions ctx func ++ [func])
              (call (GetRelatedFunctions ctx func) st)) as (s & l & -> & Hl).
  exists s, (GetRelatedFunctions ctx func :: l). split.
  - unfold emit, set_already_instrumented, call; cbn. by rewrite <- app_assoc.
  - constructor; [by apply P_other | exact Hl].
Qed.

Lemma handler_log ctx is_exit cbid f sync st st' :
  handler ctx is_exit cbid f sync st = Returns st' ->
  exists l, calls st' = calls st ++ l /\ Forall P l.
Proof.
  unfold nvbit_at_cuda_event.
  destruct (instrument_log ctx f (set_mutex true (call pthread_mutex_lock st)))
    as (s & l & -> & Hl).
  repeat match goal with
         | |- context [if ?b then _ else _] => destruct b; cbn
         end; intros [= <-]; cbn;
    rewrite <- ?app_assoc;
    first [ by exists []; rewrite app_nil_r
          | eexists; split; [reflexivity|];
            repeat first [ apply Forall_app; split | apply Forall_cons; split
                         | apply Forall_nil_2 | exact Hl | by apply P_other ] ].
Qed.

Lemma step_log e st st' :
  exec1 e st = Returns st' -> exists l, calls st' = calls st ++ l /\ Forall P l.
Proof.
  destruct e as [ctx is_exit cbid f sync|a n]; cbn.
  - apply handler_log.
  - intros [= <-]. exists []. rewrite app_nil_r. by destruct a.
Qed.

Lemma run_log es st st' :
  exec es st = Returns st' -> exists l, calls st' = calls st ++ l /\ Forall P l.
Proof.
  revert st. induction es as [|e es IH]; intros st; cbn.
  - intros [= <-]. exists []. by rewrite app_nil_r.
  - destruct (exec1 e st) as [st1| |] eqn:He; try discriminate.
    intros H. destruct (IH _ H) as (l2 & -> & Hl2).
    destruct (step_log _ _ _ He) as (l1 & -> & Hl1).
    exists (l1 ++ l2). rewrite app_assoc. split; [done|]. by apply Forall_app.
Qed.

End LogExtension.

(** A launch entry that finds the mutex free returns. *)
Lemma handler_entry_returns ctx is_exit cbid f sync st :
  is_launch cbid = true -> truthy is_exit = false -> mutex st = false ->
  exists st', handler ctx is_exit cbid f sync st = Returns st'.
Proof.
  intros Hl He Hm. unfold nvbit_at_cuda_event.
  rewrite handler_launch, He, Hm by done. cbn. eauto.
Qed.

(** *** A run scans every function once *)

Lemma handler_scanned_once ctx is_exit cbid f sync order st st' :
  scanned_once nvbit_get_instrs cfg order st ->
  handler ctx is_exit cbid f sync st = Returns st' ->
  exists order', scanned_once nvbit_get_instrs cfg order' st'.
Proof.
  intros Hinv.
  assert (Hlock : scanned_once nvbit_get_instrs cfg order
                    (set_mutex true (call pthread_mutex_lock st))).
  { eapply scanned_once_ext; [| |exact Hinv]; [done|].
    cbn. rewrite filter_app. cbn. by rewrite app_nil_r. }
  destruct (instrument_scanned_once nvbit_get_instrs cfg nvbit_get_related_functions
              ctx f order _ Hlock) as (order1 & Hinv1).
  unfold nvbit_at_cuda_event.
  repeat match goal with
         | |- context [if ?b then _ else _] => destruct b; cbn
         end; intros [= <-];
    first [ by exists order
          | exists order1; eapply scanned_once_ext; [| |exact Hinv1]; [done|];
            cbn; rewrite filter_app; cbn; by rewrite app_nil_r
          | exists order; eapply scanned_once_ext; [| |exact Hinv]; [done|];
            cbn; rewrite ?filter_app; cbn; by rewrite ?app_nil_r ].
Qed.

Lemma run_scanned_once es order st st' :
  scanned_once nvbit_get_instrs cfg order st ->
  exec es st = Returns st' ->
  exists order', scanned_once nvbit_get_instrs cfg order' st'.
Proof.
  revert order st. induction es as [|e es IH]; intros order st Hinv; cbn.
  - intros [= <-]. by exists order.
  - destruct (exec1 e st) as [st1| |] eqn:He; try discriminate.
    intros H. destruct e as [ctx is_exit cbid f sync|a n]; cbn in He.
    + destruct (handler_scanned_once _ _ _ _ _ _ _ _ Hinv He) as (order1 & Hinv1).
      eauto.
    + injection He as <-. eapply IH; [|exact H].
      eapply scanned_once_ext; [| |exact Hinv]; by destruct a.
Qed.

(** *** The mutex over a launch *)

(** While the mutex is held a launch entry does not return. *)
Lemma handler_entry_blocks ctx is_exit cbid f sync st :
  is_launch cbid = true -> truthy is_exit = false -> mutex st = true ->
  handler ctx is_exit cbid f sync st = Blocks.
Proof.
  intros Hl He Hm. unfold nvbit_at_cuda_event.
  rewrite handler_launch, He, Hm by done. reflexivity.
Qed.

(** A launch entry that returns holds the mutex, with the managed counters
    at zero; the matching exit folds the counters and releases it. *)
Lemma handler_entry_locks ctx is_exit cbid f sync st st' :
  is_launch cbid = true -> truthy is_exit = false ->
  handler ctx is_exit cbid f sync st = Returns st' ->
  mutex st = false /\ mutex st' = true /\
  instr_counter st' = 0 /\ indirect_counter st' = 0 /\
  shfl_counter st' = 0 /\ ballot_counter st' = 0.
Proof.
  intros Hl He. unfold nvbit_at_cuda_event. rewrite handler_launch, He by done.
  cbn [negb]. destruct (mutex st); [discriminate|].
  destruct (instrument_shape ctx f (set_mutex true (call pthread_mutex_lock st)))
    as (s & l & ->).
  repeat match goal with
         | |- context [if ?b then _ else _] => destruct b; cbn
         end; intros [= <-]; done.
Qed.

Lemma handler_exit_folds ctx is_exit cbid f sync st st' :
  is_launch cbid = true -> truthy is_exit = true ->
  handler ctx is_exit cbid f sync st = Returns st' ->
  sync = cudaSuccess /\ mutex st' = false /\
  total_instr st' = u64 (total_instr st + instr_counter st) /\
  total_indirect st' = u64 (total_indirect st + indirect_counter st) /\
  total_shfl st' = u64 (total_shfl st + shfl_counter st) /\
  total_ballot st' = u64 (total_ballot st + ballot_counter st) /\
  total_cg st' = total_cg st.
Proof.
  intros Hl He. unfold nvbit_at_cuda_event. rewrite handler_launch, He by done.
  cbn [negb]. destruct (sync =? cudaSuccess) eqn:Hs; cbn [negb]; [|discriminate].
  apply Z.eqb_eq in Hs. intros [= <-]. done.
Qed.

End CallbackFacts.

(** ** The kernel index *)

(** C1. The launch index is meant to count the launches, so that the active
    region of launch [n] is decided from [n].  The code never assigns
    [kernel_id]: with the launch interval [0, 1) and three launches of kernel
    4, each counting ten instructions, the index is still 0 at the end, all
    three launches run instrumented, and the instruction total is 30. *)
Theorem kernel_id_never_advances :
  match run Demo.related Demo.instrs (with_grid_interval 0 1 default_config)
          (Demo.launch 4 10 ++ Demo.launch 4 10 ++ Demo.launch 4 10)
          (nvbit_at_init (with_grid_interval 0 1 default_config)) with
  | Returns st =>
      kernel_id st = 0 /\
      enable_flags (calls st) = [true; true; true] /\
      total_instr st = 30
  | _ => False
  end.
Proof. vm_compute. repeat split. Qed.

(** ** Exactly-once instrumentation *)

(** C2. However often the instrumentor is invoked, directly or through the
    launch callback, every recorded function has been scanned exactly once:
    the scan calls in the log are the scans of the recorded functions, one
    per function.  A later visit of a recorded function fails to insert it
    and changes nothing, and a second invocation with the same function only
    repeats the query for its related functions. *)
Theorem instrumented_exactly_once
    (nvbit_get_related_functions : CUcontext -> CUfunction -> list CUfunction)
    (nvbit_get_instrs : CUcontext -> CUfunction -> list Instr) (cfg : config) :
  (forall invs, exists order,
      scanned_once nvbit_get_instrs cfg order
        (instrument_all nvbit_get_related_functions nvbit_get_instrs cfg invs
           (nvbit_at_init cfg))) /\
  (forall es st,
      run nvbit_get_related_functions nvbit_get_instrs cfg es (nvbit_at_init cfg)
      = Returns st ->
      exists order, scanned_once nvbit_get_instrs cfg order st) /\
  (forall ctx f st,
      f ∈ already_instrumented st ->
      (unordered_set_insert f (already_instrumented st)).2 = false /\
      instrument_one nvbit_get_instrs cfg ctx f st = st) /\
  (forall ctx f st,
      let st' := instrument_function_if_needed nvbit_get_related_functions
                   nvbit_get_instrs cfg ctx f st in
      f ∈ already_instrumented st' /\
      instrument_function_if_needed nvbit_get_related_functions nvbit_get_instrs
        cfg ctx f st'
      = call (GetRelatedFunctions ctx f) st').
Proof.
  split_and!.
  - intros invs. eapply instrument_all_scanned_once, scanned_once_init.
  - intros es st Hrun. eapply run_scanned_once; [apply scanned_once_init | exact Hrun].
  - intros ctx f st Hin. split.
    + unfold unordered_set_insert. by rewrite bool_decide_eq_true_2.
    + by apply instrument_one_seen.
  - intros ctx f st st'. split.
    + apply instrument_records. apply elem_of_app. right. by left.
    + apply instrument_again.
Qed.

Lemma instrumented_exactly_once_witness :
  1%N ∈ already_instrumented Demo.st1 /\
  (unordered_set_insert 1%N (already_instrumented Demo.st1)).2 = false /\
  instrument_one Demo.instrs default_config 0 1 Demo.st1 = Demo.st1.
Proof.
  assert (H : 1%N ∈ already_instrumented Demo.st1) by by_compute.
  split; [exact H|].
  exact (proj1 (proj2 (proj2
           (instrumented_exactly_once Demo.related Demo.instrs default_config)))
           0%N 1%N Demo.st1 H).
Defined.

(** ** Eligibility *)

(** C3. An instruction is probed exactly when its index lies in
    [instr_begin, instr_end): the loop body requests a patch for it in that
    case and leaves the state alone otherwise; over a whole run every patch
    call names an instruction of the interval.  When the interval is empty
    nothing is ever patched, and a launch entry that finds the mutex free
    returns. *)
Theorem probes_only_inside_interval (cfg : config) :
  (forall i st,
      nvbit_insert_call i "count_instrs" IPOINT_BEFORE
        ∈ new_calls st (instrument_instr cfg i st)
      <-> instr_begin_interval cfg <= getIdx i < instr_end_interval cfg) /\
  (forall i st,
      ~ (instr_begin_interval cfg <= getIdx i < instr_end_interval cfg) ->
      instrument_instr cfg i st = st) /\
  (forall nvbit_get_related_functions nvbit_get_instrs es st st' i dev_func ipoint,
      run nvbit_get_related_functions nvbit_get_instrs cfg es st = Returns st' ->
      nvbit_insert_call i dev_func ipoint ∈ new_calls st st' ->
      instr_begin_interval cfg <= getIdx i < instr_end_interval cfg) /\
  (instr_end_interval cfg <= instr_begin_interval cfg ->
   forall nvbit_get_related_functions nvbit_get_instrs,
     (forall i, eligible cfg i = false) /\
     (forall es st st',
         run nvbit_get_related_functions nvbit_get_instrs cfg es st = Returns st' ->
         filter is_patch (calls st') = filter is_patch (calls st)) /\
     (forall ctx cbid f sync st,
         is_launch cbid = true -> mutex st = false ->
         exists st',
           nvbit_at_cuda_event nvbit_get_related_functions nvbit_get_instrs cfg
             ctx 0 cbid f sync st = Returns st' /\
           filter is_patch (calls st') = filter is_patch (calls st))).
Proof.
  assert (Hinstr : forall i, Forall (fun c => match c with
                    | nvbit_insert_call j _ _ => eligible cfg j = true
                    | _ => True end) (instr_log cfg i)).
  { intros i. unfold instr_log. destruct (eligible cfg i) eqn:He; [|constructor].
    apply Forall_app. split.
    - unfold printed. destruct (verbose cfg =? 1), (verbose cfg =? 2); repeat constructor.
    - apply Forall_flat_map, Forall_forall. intros a _.
      unfold probe, guard_call. destruct (truthy (exclude_pred_off cfg));
        repeat constructor; exact He. }
  split_and!.
  - intros i st. rewrite instrument_instr_emit, new_calls_emit.
    unfold instr_log. pose proof (bool_decide_spec
      (instr_begin_interval cfg <= getIdx i < instr_end_interval cfg)) as Hspec.
    fold (eligible cfg i) in Hspec. rewrite <- Hspec.
    destruct (eligible cfg i); split;
      [done| |intros Hc; by apply elem_of_nil in Hc|done].
    intros _. apply elem_of_app. right. apply list_elem_of_In, in_flat_map.
    exists addr_instr_counter. split; [|by left].
    apply list_elem_of_In, counters_of_generic.
  - intros i st Hout. rewrite instrument_instr_emit. unfold instr_log, eligible.
    rewrite bool_decide_eq_false_2 by done. apply emit_nil.
  - intros rel ins es st st' i dev_func ipoint Hrun Hin.
    destruct (run_log rel ins cfg
                (fun c => match c with
                          | nvbit_insert_call j _ _ => eligible cfg j = true
                          | _ => True end)) with (es := es) (st := st) (st' := st')
      as (l & Hl & Hall); [| |exact Hrun|].
    + intros ctx f. unfold function_log. constructor; [done|].
      apply Forall_app. split.
      * destruct (truthy (verbose cfg)); repeat constructor.
      * apply Forall_flat_map, Forall_forall. intros j _. apply Hinstr.
    + intros c Hc. by destruct c.
    + unfold new_calls in Hin. rewrite Hl, drop_app_length in Hin.
      rewrite Forall_forall in Hall. specialize (Hall _ Hin). cbn in Hall.
      unfold eligible in Hall. by apply bool_decide_eq_true in Hall.
  - intros Hempty rel ins.
    assert (Hnone : forall i, eligible cfg i = false).
    { intros i. unfold eligible. apply bool_decide_eq_false. lia. }
    assert (Hrun : forall es st st',
               run rel ins cfg es st = Returns st' ->
               filter is_patch (calls st') = filter is_patch (calls st)).
    { intros es st st' Hrun.
      destruct (run_log rel ins cfg (fun c => is_patch c = false))
        with (es := es) (st := st) (st' := st') as (l & Hl & Hall); [| |exact Hrun|].
      - intros ctx f. unfold function_log. constructor; [done|].
        apply Forall_app. split.
        + destruct (truthy (verbose cfg)); repeat constructor.
        + apply Forall_flat_map, Forall_forall. intros j _.
          unfold instr_log. rewrite Hnone. constructor.
      - intros c Hc. by destruct c.
      - rewrite Hl, filter_app, (filter_all_false _ _ Hall). apply app_nil_r. }
    split_and!; [exact Hnone | exact Hrun |].
    intros ctx cbid f sync st Hl Hm.
    destruct (handler_entry_returns rel ins cfg ctx 0 cbid f sync st) as [st' Hst'];
      [done..|].
    exists st'. split; [exact Hst'|].
    apply (Hrun [Callback ctx 0 cbid f sync] st st'). cbn. by rewrite Hst'.
Qed.

Lemma probes_only_inside_interval_witness :
  instr_end_interval empty_interval_config <= instr_begin_interval empty_interval_config /\
  is_launch API_CUDA_cuLaunchKernel = true /\
  mutex (nvbit_at_init empty_interval_config) = false /\
  exists st',
    nvbit_at_cuda_event Demo.related Demo.instrs empty_interval_config
      0 0 API_CUDA_cuLaunchKernel 1 cudaSuccess (nvbit_at_init empty_interval_config)
    = Returns st' /\
    filter is_patch (calls st')
    = filter is_patch (calls (nvbit_at_init empty_interval_config)).
Proof.
  assert (H1 : instr_end_interval empty_interval_config
               <= instr_begin_interval empty_interval_config) by (cbn; lia).
  split; [exact H1|]. split; [reflexivity|]. split; [reflexivity|].
  exact (proj2 (proj2 (proj2 (proj2 (proj2
           (probes_only_inside_interval empty_interval_config))) H1
           Demo.related Demo.instrs))
           0%N API_CUDA_cuLaunchKernel 1%N cudaSuccess
           (nvbit_at_init empty_interval_config) eq_refl eq_refl).
Defined.

(** ** Related functions of a recorded function *)

(** C4, as stated, fails.  Kernel 1 is instrumented, which records the
    function 2 related to it.  Invoking the instrumentor with kernel 1 again
    still queries its related functions; invoking it with function 2, which
    is recorded, resolves the functions related to 2 and records and scans
    function 3. *)
Lemma related_functions_still_visited :
  let instrument := instrument_function_if_needed Demo.related Demo.instrs default_config in
  1%N ∈ already_instrumented Demo.st1 /\
  instrument 0%N 1%N Demo.st1 <> Demo.st1 /\
  new_calls Demo.st1 (instrument 0%N 1%N Demo.st1) = [GetRelatedFunctions 0 1] /\
  2%N ∈ already_instrumented Demo.st1 /\
  (3%N ∉ already_instrumented Demo.st1) /\
  3%N ∈ already_instrumented (instrument 0%N 2%N Demo.st1) /\
  new_calls Demo.st1 (instrument 0%N 2%N Demo.st1)
  = GetRelatedFunctions 0 2 :: function_log Demo.instrs default_config 0 3.
Proof.
  cbv zeta. split_and!.
  - by_compute.
  - intros H. apply (f_equal (fun st => length (calls st))) in H.
    vm_compute in H. discriminate H.
  - vm_compute. reflexivity.
  - by_compute.
  - by_compute.
  - by_compute.
  - vm_compute. reflexivity.
Qed.

(** C4, amended.  When the function is already recorded, only its own scan
    is skipped: its instructions are not fetched and nothing is patched for
    them.  Its related functions are queried again and each goes through the
    same insertion test, so that every one of them is recorded afterwards;
    when they all were recorded before, the query is the only effect. *)
Theorem recorded_function_skips_own_scan
    (nvbit_get_related_functions : CUcontext -> CUfunction -> list CUfunction)
    (nvbit_get_instrs : CUcontext -> CUfunction -> list Instr) (cfg : config)
    (ctx : CUcontext) (func : CUfunction) (st : state) :
  func ∈ already_instrumented st ->
  let st' := instrument_function_if_needed nvbit_get_related_functions
               nvbit_get_instrs cfg ctx func st in
  st' = foldl (fun st f => instrument_one nvbit_get_instrs cfg ctx f st)
          (call (GetRelatedFunctions ctx func) st)
          (nvbit_get_related_functions ctx func) /\
  (exists news,
      new_calls st st'
      = GetRelatedFunctions ctx func
          :: flat_map (function_log nvbit_get_instrs cfg ctx) news /\
      NoDup news /\
      (func ∉ news) /\
      forall g, g ∈ news <->
                (g ∈ nvbit_get_related_functions ctx func) /\
                (g ∉ already_instrumented st)) /\
  (forall ctx', GetInstrs ctx' func ∉ new_calls st st') /\
  (forall g, g ∈ nvbit_get_related_functions ctx func -> g ∈ already_instrumented st') /\
  ((forall g, g ∈ nvbit_get_related_functions ctx func -> g ∈ already_instrumented st) ->
   st' = call (GetRelatedFunctions ctx func) st).
Proof.
  intros Hin st'.
  assert (Heq : st' = foldl (fun st f => instrument_one nvbit_get_instrs cfg ctx f st)
                        (call (GetRelatedFunctions ctx func) st)
                        (nvbit_get_related_functions ctx func)).
  { subst st'. unfold instrument_function_if_needed. rewrite foldl_app. cbn [foldl].
    apply instrument_one_seen. by apply foldl_instrument_one_mono. }
  destruct (foldl_visit_exact nvbit_get_instrs cfg ctx
              (nvbit_get_related_functions ctx func)
              (call (GetRelatedFunctions ctx func) st)) as (news & Hnews & Hnd & Hiff).
  cbn [already_instrumented call] in Hiff, Hnews.
  assert (Hnew : new_calls st st'
                 = GetRelatedFunctions ctx func
                     :: flat_map (function_log nvbit_get_instrs cfg ctx) news).
  { rewrite Heq, Hnews. unfold new_calls, emit, set_already_instrumented, call; cbn.
    rewrite <- app_assoc. apply drop_app_length. }
  assert (Hfunc : func ∉ news) by (rewrite Hiff; tauto).
  split_and!.
  - exact Heq.
  - exists news. done.
  - intros ctx'. rewrite Hnew, elem_of_cons. intros [[=]|Hscan].
    apply list_elem_of_In, in_flat_map in Hscan as (g & Hg & Hscan).
    apply list_elem_of_In in Hg, Hscan.
    apply GetInstrs_in_scan in Hscan as ->. done.
  - intros g Hg. subst st'. apply instrument_records.
    apply elem_of_app. by left.
  - intros Hall. rewrite Heq. by apply foldl_instrument_one_seen.
Qed.

Lemma recorded_function_skips_own_scan_witness :
  2%N ∈ already_instrumented Demo.st1 /\
  forall ctx',
    GetInstrs ctx' 2%N
    ∉ new_calls Demo.st1
        (instrument_function_if_needed Demo.related Demo.instrs default_config
           0 2 Demo.st1).
Proof.
  assert (H : 2%N ∈ already_instrumented Demo.st1) by by_compute.
  split; [exact H|].
  exact (proj1 (proj2 (proj2
           (recorded_function_skips_own_scan Demo.related Demo.instrs default_config
              0%N 2%N Demo.st1 H)))).
Defined.

(** ** Probes of one instruction *)

(** C5. For an eligible instruction the loop body injects one call of
    [count_instrs] per counter of [counters_of], each before the instruction
    and each with the arguments guard, warp-level flag, counter address, in
    this order.  The generic counter is always among them, a category counter
    exactly when the category matches; the counters are distinct and there
    are one plus the number of matched categories of them, at most four. *)
Theorem probes_of_eligible_instruction (cfg : config) (i : Instr) (st : state) :
  eligible cfg i = true ->
  injected_calls (new_calls st (instrument_instr cfg i st))
  = map (fun a =>
           {| ic_instr := i; ic_dev_func := "count_instrs"; ic_ipoint := IPOINT_BEFORE;
              ic_args := [ (if truthy (exclude_pred_off cfg)
                            then arg_guard_pred_val else arg_const_val32 1);
                           arg_const_val32 (u32 (count_warp_level cfg));
                           arg_const_val64 a ] |})
        (counters_of i) /\
  addr_instr_counter ∈ counters_of i /\
  (addr_indirect_counter ∈ counters_of i <->
     getOpcode i = "CALL.ABS"%string /\
     exists pre suf, getSass i = (pre ++ "R" ++ suf)%string) /\
  (addr_shfl_counter ∈ counters_of i <-> getOpcodeShort i = "SHFL"%string) /\
  (addr_ballot_counter ∈ counters_of i <-> getOpcode i = "VOTE.BALL"%string) /\
  NoDup (counters_of i) /\
  length (counters_of i) = (1 + matched i)%nat /\
  (length (counters_of i) <= 4)%nat.
Proof.
  intros He. split_and!.
  - rewrite instrument_instr_emit, new_calls_emit, injected_calls_instr_log, He.
    reflexivity.
  - apply counters_of_generic.
  - rewrite counters_of_indirect. apply is_INDIRECT_spec.
  - rewrite counters_of_shfl. unfold is_SHUFFLE. apply String.eqb_eq.
  - rewrite counters_of_ballot. unfold is_BALLOT. apply String.eqb_eq.
  - apply counters_of_NoDup.
  - apply counters_of_length.
  - rewrite counters_of_length. pose proof (matched_le_3 i). lia.
Qed.

Lemma probes_of_eligible_instruction_witness :
  eligible default_config (Demo.shfl 0) = true /\
  injected_calls
    (new_calls (nvbit_at_init default_config)
       (instrument_instr default_config (Demo.shfl 0) (nvbit_at_init default_config)))
  = [ {| ic_instr := Demo.shfl 0; ic_dev_func := "count_instrs";
         ic_ipoint := IPOINT_BEFORE;
         ic_args := [arg_const_val32 1; arg_const_val32 1;
                     arg_const_val64 addr_shfl_counter] |};
      {| ic_instr := Demo.shfl 0; ic_dev_func := "count_instrs";
         ic_ipoint := IPOINT_BEFORE;
         ic_args := [arg_const_val32 1; arg_const_val32 1;
                     arg_const_val64 addr_instr_counter] |} ].
Proof.
  split; [reflexivity|].
  exact (proj1 (probes_of_eligible_instruction default_config (Demo.shfl 0)
                  (nvbit_at_init default_config) eq_refl)).
Defined.

(** C6. An eligible instruction gets a probe on the indirect-call counter
    exactly when its opcode is "CALL.ABS" and its SASS text contains "R";
    with another opcode, or without an "R" in the text, it gets none. *)
Theorem indirect_iff_call_abs_with_R (cfg : config) (i : Instr) (st : state) :
  eligible cfg i = true ->
  ((exists c, c ∈ injected_calls (new_calls st (instrument_instr cfg i st)) /\
              arg_const_val64 addr_indirect_counter ∈ ic_args c)
   <-> getOpcode i = "CALL.ABS"%string /\
       exists pre suf, getSass i = (pre ++ "R" ++ suf)%string) /\
  (nvbit_add_call_arg_const_val64 i addr_indirect_counter
     ∈ new_calls st (instrument_instr cfg i st)
   <-> getOpcode i = "CALL.ABS"%string /\
       exists pre suf, getSass i = (pre ++ "R" ++ suf)%string) /\
  (getOpcode i <> "CALL.ABS"%string ->
   nvbit_add_call_arg_const_val64 i addr_indirect_counter
     ∉ new_calls st (instrument_instr cfg i st)) /\
  ((forall pre suf, getSass i <> (pre ++ "R" ++ suf)%string) ->
   nvbit_add_call_arg_const_val64 i addr_indirect_counter
     ∉ new_calls st (instrument_instr cfg i st)).
Proof.
  intros He.
  assert (Hlog : nvbit_add_call_arg_const_val64 i addr_indirect_counter
                   ∈ new_calls st (instrument_instr cfg i st)
                 <-> is_INDIRECT i = true).
  { rewrite instrument_instr_emit, new_calls_emit. unfold instr_log. rewrite He.
    rewrite <- counters_of_indirect, elem_of_app. split.
    - intros [Hp|Hp].
      + unfold printed in Hp. destruct (verbose cfg =? 1), (verbose cfg =? 2); set_solver.
      + apply list_elem_of_In, in_flat_map in Hp as (a & Ha & Hp).
        apply list_elem_of_In in Ha. unfold probe, guard_call in Hp.
        destruct (truthy (exclude_pred_off cfg)); cbn in Hp;
          destruct Hp as [Hp|[Hp|[Hp|[Hp|[]]]]]; try discriminate Hp;
          by injection Hp as <-.
    - intros Ha. right. apply list_elem_of_In, in_flat_map.
      exists addr_indirect_counter. split; [by apply list_elem_of_In|].
      cbn. tauto. }
  split_and!.
  - rewrite instrument_instr_emit, new_calls_emit, injected_calls_instr_log, He.
    rewrite <- is_INDIRECT_spec, <- counters_of_indirect. split.
    + intros (c & Hc & Harg).
      apply list_elem_of_In, in_map_iff in Hc as (a & <- & Ha).
      apply list_elem_of_In in Ha. cbn in Harg.
      unfold guard_arg in Harg. destruct (truthy (exclude_pred_off cfg));
        set_solver.
    + intros Ha. exists (probe_request cfg i addr_indirect_counter). split.
      * apply list_elem_of_In, in_map, list_elem_of_In, Ha.
      * cbn. set_solver.
  - rewrite Hlog. apply is_INDIRECT_spec.
  - intros Hop. rewrite Hlog, is_INDIRECT_spec. tauto.
  - intros Hsass. rewrite Hlog, is_INDIRECT_spec. intros (_ & pre & suf & H).
    by apply (Hsass pre suf).
Qed.

Lemma indirect_iff_call_abs_with_R_witness :
  eligible default_config (Demo.call_abs 1) = true /\
  (nvbit_add_call_arg_const_val64 (Demo.call_abs 1) addr_indirect_counter
     ∈ new_calls (nvbit_at_init default_config)
         (instrument_instr default_config (Demo.call_abs 1) (nvbit_at_init default_config))
   <-> getOpcode (Demo.call_abs 1) = "CALL.ABS"%string /\
       exists pre suf, getSass (Demo.call_abs 1) = (pre ++ "R" ++ suf)%string).
Proof.
  split; [reflexivity|].
  exact (proj1 (proj2 (indirect_iff_call_abs_with_R default_config (Demo.call_abs 1)
                         (nvbit_at_init default_config) eq_refl))).
Defined.

(** ** The two region modes *)

(** C7. With [ACTIVE_FROM_START] set, a profiler start or stop callback
    returns the state it was given, so that a run and the same run without
    these callbacks end alike, log of enable decisions included.  Without it,
    [START_GRID_NUM] and [END_GRID_NUM] are not read: two settings of them
    give the same start state and the same runs. *)
Theorem region_modes_do_not_interfere
    (nvbit_get_related_functions : CUcontext -> CUfunction -> list CUfunction)
    (nvbit_get_instrs : CUcontext -> CUfunction -> list Instr) (cfg : config) :
  (active_from_start cfg <> 0 ->
   (forall ctx is_exit cbid f sync st,
       cbid = API_CUDA_cuProfilerStart \/ cbid = API_CUDA_cuProfilerStop ->
       nvbit_at_cuda_event nvbit_get_related_functions nvbit_get_instrs cfg
         ctx is_exit cbid f sync st = Returns st) /\
   (forall es st,
       run nvbit_get_related_functions nvbit_get_instrs cfg es st
       = run nvbit_get_related_functions nvbit_get_instrs cfg
           (filter (fun e => negb (is_profiler_signal e)) es) st)) /\
  (active_from_start cfg = 0 ->
   forall s e s' e',
     nvbit_at_init (with_grid_interval s e cfg)
     = nvbit_at_init (with_grid_interval s' e' cfg) /\
     (forall ctx is_exit cbid f sync st,
         nvbit_at_cuda_event nvbit_get_related_functions nvbit_get_instrs
           (with_grid_interval s e cfg) ctx is_exit cbid f sync st
         = nvbit_at_cuda_event nvbit_get_related_functions nvbit_get_instrs
             (with_grid_interval s' e' cfg) ctx is_exit cbid f sync st) /\
     (forall es st,
         run nvbit_get_related_functions nvbit_get_instrs
           (with_grid_interval s e cfg) es st
         = run nvbit_get_related_functions nvbit_get_instrs
             (with_grid_interval s' e' cfg) es st)).
Proof.
  split.
  - intros Hafs. split.
    + intros. by apply handler_profiler_ignored.
    + intros. by apply run_profiler_ignored.
  - intros Hafs s e s' e'. split_and!.
    + reflexivity.
    + intros. by rewrite !handler_grid_ignored.
    + intros. by rewrite !run_grid_ignored.
Qed.

Lemma region_modes_do_not_interfere_witness :
  (active_from_start default_config <> 0 /\
   run Demo.related Demo.instrs default_config
     (Demo.profiler_stop :: Demo.launch 1 7 ++ Demo.profiler_start :: Demo.launch 1 7)
     (nvbit_at_init default_config)
   = run Demo.related Demo.instrs default_config
       (Demo.launch 1 7 ++ Demo.launch 1 7) (nvbit_at_init default_config)) /\
  (active_from_start signal_driven_config = 0 /\
   run Demo.related Demo.instrs (with_grid_interval 0 1 signal_driven_config)
     (Demo.profiler_start :: Demo.launch 1 7 ++ Demo.launch 1 7)
     (nvbit_at_init (with_grid_interval 0 1 signal_driven_config))
   = run Demo.related Demo.instrs (with_grid_interval 5 9 signal_driven_config)
       (Demo.profiler_start :: Demo.launch 1 7 ++ Demo.launch 1 7)
       (nvbit_at_init (with_grid_interval 5 9 signal_driven_config))).
Proof.
  assert (H1 : active_from_start default_config <> 0) by discriminate.
  assert (H0 : active_from_start signal_driven_config = 0) by reflexivity.
  split; (split; [assumption|]).
  - exact (proj2 (proj1 (region_modes_do_not_interfere Demo.related Demo.instrs
                           default_config) H1)
             (Demo.profiler_stop :: Demo.launch 1 7 ++ Demo.profiler_start :: Demo.launch 1 7)
             (nvbit_at_init default_config)).
  - exact (proj2 (proj2 (proj2 (region_modes_do_not_interfere Demo.related Demo.instrs
                                  signal_driven_config) H0 0 1 5 9))
             (Demo.profiler_start :: Demo.launch 1 7 ++ Demo.launch 1 7)
             (nvbit_at_init (with_grid_interval 0 1 signal_driven_config))).
Defined.

(** ** Cooperative launches *)

(** C8. At the exit of a cooperative launch the callback adds one to the
    cooperative-launch total and does nothing else; at its entry it does
    nothing.  A run of cooperative launches leaves the four instruction
    totals as they were and raises the cooperative total by the number of
    exits.  After two cooperative launches from start-up the report reads a
    cooperative total of 2 and instruction totals of 0. *)
Theorem cooperative_launches_only_counted
    (nvbit_get_related_functions : CUcontext -> CUfunction -> list CUfunction)
    (nvbit_get_instrs : CUcontext -> CUfunction -> list Instr) (cfg : config) :
  (forall ctx is_exit cbid f sync st,
      is_cooperative_launch cbid = true -> truthy is_exit = true ->
      nvbit_at_cuda_event nvbit_get_related_functions nvbit_get_instrs cfg
        ctx is_exit cbid f sync st
      = Returns (set_total_cg (u64 (total_cg st + 1)) st) /\
      (0 <= total_cg st < 2 ^ 64 - 1 -> u64 (total_cg st + 1) = total_cg st + 1)) /\
  (forall es st,
      Forall (fun e => is_cooperative_callback e = true) es ->
      0 <= total_cg st < 2 ^ 64 ->
      exists st',
        run nvbit_get_related_functions nvbit_get_instrs cfg es st = Returns st' /\
        total_cg st'
        = u64 (total_cg st + Z.of_nat (length (filter is_cooperative_exit es))) /\
        total_instr st' = total_instr st /\
        total_indirect st' = total_indirect st /\
        total_shfl st' = total_shfl st /\
        total_ballot st' = total_ballot st) /\
  (forall f g,
      exists st',
        run nvbit_get_related_functions nvbit_get_instrs cfg
          (Demo.cooperative_launch f ++ Demo.cooperative_launch g) (nvbit_at_init cfg)
        = Returns st' /\
        total_cg st' = 2 /\
        nvbit_at_term cfg st'
        = [ ("Total indirect function calls: 0" ++ newline)%string;
            ("Total cooperative group kernel launches: 2" ++ newline)%string;
            (if count_warp_level cfg =? 1
             then ("Total instructions (warp level): 0" ++ newline)%string
             else ("Total instructions (thread level): 0" ++ newline)%string);
            ("Total __shfl_sync() calls: 0" ++ newline)%string;
            ("Total __ballot_sync() calls: 0" ++ newline)%string ]).
Proof.
  split_and!.
  - intros ctx is_exit cbid f sync st Hc He. split.
    + rewrite handler_cooperative, He by done. reflexivity.
    + intros Hr. apply u64_small. lia.
  - intros es st Hes Hr. by apply run_cooperative.
  - intros f g. eexists. split; [|split].
    + cbn [run app Demo.cooperative_launch step].
      rewrite !handler_cooperative by reflexivity. reflexivity.
    + unfold nvbit_at_init. by destruct (active_from_start cfg =? 0).
    + unfold nvbit_at_init, nvbit_at_term.
      by destruct (active_from_start cfg =? 0), (count_warp_level cfg =? 1).
Qed.

Lemma cooperative_launches_only_counted_witness :
  is_cooperative_launch API_CUDA_cuLaunchCooperativeKernelMultiDevice = true /\
  truthy 1 = true /\
  nvbit_at_cuda_event Demo.related Demo.instrs default_config
    0 1 API_CUDA_cuLaunchCooperativeKernelMultiDevice 4 cudaSuccess Demo.st1
  = Returns (set_total_cg (u64 (total_cg Demo.st1 + 1)) Demo.st1).
Proof.
  split; [reflexivity|]. split; [reflexivity|].
  exact (proj1 (proj1 (cooperative_launches_only_counted Demo.related Demo.instrs
                         default_config)
                  0%N 1 API_CUDA_cuLaunchCooperativeKernelMultiDevice 4%N cudaSuccess
                  Demo.st1 eq_refl eq_refl)).
Defined.

(** C10. A callback of a cooperative launch returns, whether or not the
    mutex is held, without any call to pthreads, NVBit or CUDA: the log, the
    mutex, the set of instrumented functions and the four managed counters
    are as before.  The state it returns differs from the one it was given
    in [total_cg] only, and at entry not at all. *)
Theorem cooperative_launch_outside_protocol
    (nvbit_get_related_functions : CUcontext -> CUfunction -> list CUfunction)
    (nvbit_get_instrs : CUcontext -> CUfunction -> list Instr) (cfg : config)
    (ctx : CUcontext) (is_exit : Z) (cbid : nvbit_api_cuda_t) (f : CUfunction)
    (sync : Z) (st : state) :
  is_cooperative_launch cbid = true ->
  exists st',
    nvbit_at_cuda_event nvbit_get_related_functions nvbit_get_instrs cfg
      ctx is_exit cbid f sync st = Returns st' /\
    calls st' = calls st /\
    mutex st' = mutex st /\
    already_instrumented st' = already_instrumented st /\
    instr_counter st' = instr_counter st /\
    indirect_counter st' = indirect_counter st /\
    shfl_counter st' = shfl_counter st /\
    ballot_counter st' = ballot_counter st /\
    st' = (if truthy is_exit then set_total_cg (u64 (total_cg st + 1)) st else st) /\
    (truthy is_exit = false -> st' = st).
Proof.
  intros Hc. eexists. split; [by apply handler_cooperative|].
  destruct (truthy is_exit); split_and!; try reflexivity; discriminate.
Qed.

Lemma cooperative_launch_outside_protocol_witness :
  is_cooperative_launch API_CUDA_cuLaunchCooperativeKernel = true /\
  exists st',
    nvbit_at_cuda_event Demo.related Demo.instrs default_config
      0 0 API_CUDA_cuLaunchCooperativeKernel 1 cudaSuccess
      (set_mutex true Demo.st1) = Returns st' /\
    calls st' = calls (set_mutex true Demo.st1) /\
    mutex st' = true.
Proof.
  split; [reflexivity|].
  destruct (cooperative_launch_outside_protocol Demo.related Demo.instrs default_config
              0%N 0 API_CUDA_cuLaunchCooperativeKernel 1%N cudaSuccess
              (set_mutex true Demo.st1) eq_refl) as (st' & H1 & H2 & H3 & _).
  exists st'. split; [exact H1|]. split; [exact H2|exact H3].
Defined.


(** * Further properties of the code *)

(** ** One invocation of the instrumentor, exactly *)

Lemma fresh_functions_spec s fs g :
  g ∈ fresh_functions s fs <-> (g ∈ fs) /\ (g ∉ s).
Proof.
  revert s. induction fs as [|f fs IH]; intros s; cbn.
  - rewrite !elem_of_nil. tauto.
  - case_bool_decide as Hf.
    + rewrite IH, elem_of_cons. split; [tauto|]. intros [[->|?] ?]; tauto.
    + rewrite !elem_of_cons, IH, not_elem_of_union, not_elem_of_singleton.
      destruct (decide (g = f)) as [->|]; tauto.
Qed.

Lemma fresh_functions_NoDup s fs : NoDup (fresh_functions s fs).
Proof.
  revert s. induction fs as [|f fs IH]; intros s; cbn; [apply NoDup_nil_2|].
  case_bool_decide; [apply IH|].
  apply NoDup_cons. split; [|apply IH].
  rewrite fresh_functions_spec, not_elem_of_union, not_elem_of_singleton. tauto.
Qed.

Lemma fresh_functions_app s fs1 fs2 :
  fresh_functions s (fs1 ++ fs2)
  = fresh_functions s fs1 ++ fresh_functions (list_to_set fs1 ∪ s) fs2.
Proof.
  revert s. induction fs1 as [|f fs1 IH]; intros s; cbn.
  - f_equal. apply leibniz_equiv. intros g.
    rewrite elem_of_union, elem_of_empty. tauto.
  - case_bool_decide as Hf.
    + rewrite IH. do 2 f_equal. apply leibniz_equiv. intros g.
      rewrite !elem_of_union, elem_of_singleton.
      split; [tauto|]. intros [[->|?]|?]; tauto.
    + rewrite IH. cbn. do 3 f_equal. apply leibniz_equiv. intros g.
      rewrite !elem_of_union, elem_of_singleton. tauto.
Qed.

Section Fresh.

Variable nvbit_get_instrs : CUcontext -> CUfunction -> list Instr.
Variable cfg : config.

Local Abbreviation visit := (instrument_one nvbit_get_instrs cfg).
Local Abbreviation scan := (function_log nvbit_get_instrs cfg).

Lemma foldl_visit_fresh ctx fs st :
  foldl (fun st f => visit ctx f st) st fs
  = emit (flat_map (scan ctx) (fresh_functions (already_instrumented st) fs))
      (set_already_instrumented (list_to_set fs ∪ already_instrumented st) st).
Proof.
  revert st. induction fs as [|f fs IH]; intros st; cbn [foldl fresh_functions].
  - cbn [flat_map]. rewrite emit_nil.
    replace (list_to_set [] ∪ already_instrumented st)
      with (already_instrumented st) by set_solver.
    reflexivity.
  - destruct (instrument_one_cases nvbit_get_instrs cfg ctx f st)
      as [[Hin ->]|[Hnin ->]].
    + rewrite bool_decide_eq_true_2 by done. rewrite IH.
      replace (list_to_set (f :: fs) ∪ already_instrumented st)
        with (list_to_set fs ∪ already_instrumented st) by set_solver.
      reflexivity.
    + rewrite bool_decide_eq_false_2 by done. rewrite IH.
      cbn [already_instrumented emit set_already_instrumented flat_map].
      unfold emit, set_already_instrumented; cbn.
      rewrite <- app_assoc. f_equal. set_solver.
Qed.

End Fresh.

(** X1. One invocation of the instrumentor appends the query for the related
    functions and then the scans of the functions not recorded before, each
    once and in the order of their first occurrence among the related
    functions followed by the kernel (so the kernel, when it is new and not
    among them, comes last); afterwards the recorded set is the old one with
    the related functions and the kernel added.  Nothing else changes. *)
Theorem instrument_function_if_needed_exact
    (nvbit_get_related_functions : CUcontext -> CUfunction -> list CUfunction)
    (nvbit_get_instrs : CUcontext -> CUfunction -> list Instr) (cfg : config)
    (ctx : CUcontext) (func : CUfunction) (st : state) :
  let related := nvbit_get_related_functions ctx func in
  let news := fresh_functions (already_instrumented st) (related ++ [func]) in
  instrument_function_if_needed nvbit_get_related_functions nvbit_get_instrs cfg
    ctx func st
  = emit (GetRelatedFunctions ctx func
            :: flat_map (function_log nvbit_get_instrs cfg ctx) news)
      (set_already_instrumented
         (list_to_set (related ++ [func]) ∪ already_instrumented st) st) /\
  NoDup news /\
  (forall g, g ∈ news <-> (g ∈ related ++ [func]) /\ (g ∉ already_instrumented st)) /\
  news = fresh_functions (already_instrumented st) related ++
         (if bool_decide (func ∈ list_to_set related ∪ already_instrumented st)
          then [] else [func]).
Proof.
  intros related news. split_and!.
  - unfold instrument_function_if_needed. fold related.
    rewrite foldl_visit_fresh. fold news.
    unfold emit, set_already_instrumented, call; cbn.
    rewrite <- app_assoc. reflexivity.
  - apply fresh_functions_NoDup.
  - intros g. apply fresh_functions_spec.
  - subst news. rewrite fresh_functions_app. cbn. by case_bool_decide.
Qed.

(** ** Whole runs *)

Section RunFacts.

Variable nvbit_get_related_functions : CUcontext -> CUfunction -> list CUfunction.
Variable nvbit_get_instrs : CUcontext -> CUfunction -> list Instr.
Variable cfg : config.

Local Abbreviation instrument :=
  (instrument_function_if_needed nvbit_get_related_functions nvbit_get_instrs cfg).
Local Abbreviation handler :=
  (nvbit_at_cuda_event nvbit_get_related_functions nvbit_get_instrs cfg).
Local Abbreviation exec := (run nvbit_get_related_functions nvbit_get_instrs cfg).
Local Abbreviation exec1 := (step nvbit_get_related_functions nvbit_get_instrs cfg).
Local Abbreviation scan := (function_log nvbit_get_instrs cfg).

Lemma instrument_fresh ctx func st :
  instrument ctx func st
  = emit (GetRelatedFunctions ctx func
            :: flat_map (scan ctx)
                 (fresh_functions (already_instrumented st)
                    (nvbit_get_related_functions ctx func ++ [func])))
      (set_already_instrumented
         (list_to_set (nvbit_get_related_functions ctx func ++ [func])
            ∪ already_instrumented st) st).
Proof.
  unfold instrument_function_if_needed. rewrite foldl_visit_fresh.
  unfold emit, set_already_instrumented, call; cbn.
  rewrite <- app_assoc. reflexivity.
Qed.

(** The state a launch entry returns when it finds the mutex free. *)
Lemma handler_entry_state ctx is_exit cbid f sync st :
  is_launch cbid = true -> truthy is_exit = false -> mutex st = false ->
  handler ctx is_exit cbid f sync st
  = Returns
      (let active :=
         if truthy (active_from_start cfg)
         then (kernel_id st >=? start_grid_num cfg) && (kernel_id st <? end_grid_num cfg)
         else active_region st in
       set_ballot_counter 0 (set_shfl_counter 0 (set_indirect_counter 0
         (set_instr_counter 0
            (call (nvbit_enable_instrumented ctx f active)
               (set_active_region active
                  (instrument ctx f
                     (set_mutex true (call pthread_mutex_lock st))))))))).
Proof.
  intros Hl He Hm. unfold nvbit_at_cuda_event.
  rewrite handler_launch, He, Hm by done. cbn [negb]. cbv zeta.
  rewrite instrument_fresh.
  match goal with |- context [set_active_region _ ?E] => set (st1 := E) end.
  change (kernel_id st1) with (kernel_id st).
  destruct (truthy (active_from_start cfg)).
  - destruct ((kernel_id st >=? start_grid_num cfg) && (kernel_id st <? end_grid_num cfg));
      reflexivity.
  - change (active_region st1) with (active_region st).
    change (set_active_region (active_region st) st1) with st1.
    destruct (active_region st); reflexivity.
Qed.

(** Every other callback that returns leaves the recorded set alone and adds
    no NVBit call to the log. *)
Lemma handler_not_entry ctx is_exit cbid f sync st st' :
  is_launch cbid && negb (truthy is_exit) = false ->
  handler ctx is_exit cbid f sync st = Returns st' ->
  already_instrumented st' = already_instrumented st /\
  kernel_id st' = kernel_id st /\
  exists l, calls st' = calls st ++ l /\
            Forall (fun c => c = cudaDeviceSynchronize \/ c = pthread_mutex_unlock) l.
Proof.
  intros Hne. unfold nvbit_at_cuda_event.
  destruct (is_launch cbid) eqn:Hl.
  - rewrite handler_launch by done. cbn in Hne. rewrite Hne.
    destruct (negb (sync =? cudaSuccess)); [discriminate|].
    intros [= <-]. cbn. split_and!; [done..|].
    exists [cudaDeviceSynchronize; pthread_mutex_unlock].
    rewrite <- app_assoc. split; [done|].
    apply Forall_cons. split; [by left|]. apply Forall_cons. split; [by right|]. constructor.
  - rewrite handler_not_launch by done.
    repeat match goal with
           | |- context [if ?b then _ else _] => destruct b; cbn
           end; intros [= <-]; cbn; split_and!; try done;
      exists []; by rewrite app_nil_r.
Qed.

Lemma step_grows e st st' :
  exec1 e st = Returns st' ->
  already_instrumented st ⊆ already_instrumented st' /\
  exists l, calls st' = calls st ++ l.
Proof.
  destruct e as [ctx is_exit cbid f sync|a n]; cbn.
  - destruct (is_launch cbid && negb (truthy is_exit)) eqn:Hk.
    + apply andb_true_iff in Hk as [Hl He]. apply negb_true_iff in He.
      destruct (mutex st) eqn:Hm.
      { unfold nvbit_at_cuda_event. rewrite handler_launch, He, Hm by done.
        discriminate. }
      rewrite handler_entry_state by done. intros [= <-].
      rewrite instrument_fresh. cbn. split; [set_solver|].
      rewrite <- !app_assoc. eauto.
    + intros H. destruct (handler_not_entry _ _ _ _ _ _ _ Hk H) as (-> & _ & l & -> & _).
      split; [done|eauto].
  - intros [= <-]. split; [by destruct a|]. exists []. rewrite app_nil_r. by destruct a.
Qed.

Lemma run_grows es st st' :
  exec es st = Returns st' ->
  already_instrumented st ⊆ already_instrumented st' /\
  exists l, calls st' = calls st ++ l.
Proof.
  revert st. induction es as [|e es IH]; intros st; cbn.
  - intros [= <-]. split; [done|]. exists []. by rewrite app_nil_r.
  - destruct (exec1 e st) as [st1| |] eqn:He; try discriminate.
    intros H. destruct (IH _ H) as (Hs2 & l2 & ->).
    destruct (step_grows _ _ _ He) as (Hs1 & l1 & ->).
    split; [set_solver|]. exists (l1 ++ l2). by rewrite app_assoc.
Qed.

End RunFacts.

(** X2. Along any run the set of instrumented functions only grows and the
    log is only appended to; a launch entry that returns has added exactly
    the launched function and its related functions to the set. *)
Theorem instrumented_set_only_grows
    (nvbit_get_related_functions : CUcontext -> CUfunction -> list CUfunction)
    (nvbit_get_instrs : CUcontext -> CUfunction -> list Instr) (cfg : config) :
  (forall es st st',
      run nvbit_get_related_functions nvbit_get_instrs cfg es st = Returns st' ->
      already_instrumented st ⊆ already_instrumented st' /\
      exists l, calls st' = calls st ++ l) /\
  (forall ctx is_exit cbid f sync st st',
      is_launch cbid = true -> truthy is_exit = false ->
      nvbit_at_cuda_event nvbit_get_related_functions nvbit_get_instrs cfg
        ctx is_exit cbid f sync st = Returns st' ->
      already_instrumented st'
      = list_to_set (nvbit_get_related_functions ctx f ++ [f]) ∪ already_instrumented st).
Proof.
  split.
  - intros es st st'. apply run_grows.
  - intros ctx is_exit cbid f sync st st' Hl He.
    destruct (mutex st) eqn:Hm.
    + unfold nvbit_at_cuda_event. rewrite handler_launch, He, Hm by done. discriminate.
    + rewrite handler_entry_state by done. intros [= <-].
      rewrite instrument_fresh. reflexivity.
Qed.

Lemma instrumented_set_only_grows_witness :
  is_launch API_CUDA_cuLaunchKernel = true /\ truthy 0 = false /\
  exists st',
    nvbit_at_cuda_event Demo.related Demo.instrs default_config
      0 0 API_CUDA_cuLaunchKernel 2 cudaSuccess Demo.st1 = Returns st' /\
    already_instrumented st'
    = list_to_set (Demo.related 0 2 ++ [2%N]) ∪ already_instrumented Demo.st1.
Proof.
  split; [reflexivity|]. split; [reflexivity|].
  destruct (handler_entry_returns Demo.related Demo.instrs default_config
              0%N 0 API_CUDA_cuLaunchKernel 2%N cudaSuccess Demo.st1
              eq_refl eq_refl eq_refl) as [st' Hst'].
  exists st'. split; [exact Hst'|].
  exact (proj2 (instrumented_set_only_grows Demo.related Demo.instrs default_config)
           0%N 0 API_CUDA_cuLaunchKernel 2%N cudaSuccess Demo.st1 st'
           eq_refl eq_refl Hst').
Defined.

(** ** The probes of a whole run *)

Section RunProbes.

Variable nvbit_get_instrs : CUcontext -> CUfunction -> list Instr.
Variable cfg : config.

Lemma inject_instr_log acc i :
  foldl inject_step acc (instr_log cfg i) = rev (probes_of_instr cfg i) ++ acc.
Proof.
  unfold instr_log, probes_of_instr. destruct (eligible cfg i); [|done].
  by rewrite foldl_app, inject_printed, inject_probes.
Qed.

Lemma inject_instr_logs acc l :
  foldl inject_step acc (flat_map (instr_log cfg) l)
  = rev (flat_map (probes_of_instr cfg) l) ++ acc.
Proof.
  revert acc. induction l as [|i l IH]; intros acc; [done|].
  cbn [flat_map]. rewrite foldl_app, inject_instr_log, IH, rev_app_distr, <- app_assoc.
  done.
Qed.

Lemma inject_function_log acc ctx f :
  foldl inject_step acc (function_log nvbit_get_instrs cfg ctx f)
  = rev (probes_of_function nvbit_get_instrs cfg ctx f) ++ acc.
Proof.
  unfold function_log, probes_of_function. cbn [foldl inject_step].
  rewrite foldl_app. destruct (truthy (verbose cfg)); cbn [foldl inject_step];
    apply inject_instr_logs.
Qed.

Lemma inject_function_logs acc (order : list (CUcontext * CUfunction)) :
  foldl inject_step acc
    (flat_map (fun p => function_log nvbit_get_instrs cfg p.1 p.2) order)
  = rev (flat_map (fun p => probes_of_function nvbit_get_instrs cfg p.1 p.2) order)
    ++ acc.
Proof.
  revert acc. induction order as [|p order IH]; intros acc; [done|].
  cbn [flat_map]. rewrite foldl_app, inject_function_log, IH, rev_app_distr,
    <- app_assoc. done.
Qed.

End RunProbes.

(** Calls outside the scans inject nothing. *)
Lemma inject_filter_scan acc l :
  foldl inject_step acc (filter is_scan l) = foldl inject_step acc l.
Proof.
  revert acc. induction l as [|c l IH]; intros acc; [done|].
  destruct (is_scan c) eqn:Hc.
  - rewrite filter_cons_True by (by rewrite Hc). cbn [foldl]. apply IH.
  - rewrite filter_cons_False by (rewrite Hc; cbn; tauto). cbn [foldl].
    rewrite IH. by destruct c.
Qed.

(** X3. After any run from start-up the calls injected into the code are, for
    each instrumented function exactly once, the probes of its eligible
    instructions in the order of the instructions: one per counter of the
    instruction, and none for any other instruction. *)
Theorem injected_calls_of_run
    (nvbit_get_related_functions : CUcontext -> CUfunction -> list CUfunction)
    (nvbit_get_instrs : CUcontext -> CUfunction -> list Instr) (cfg : config)
    (es : list event) (st : state) :
  run nvbit_get_related_functions nvbit_get_instrs cfg es (nvbit_at_init cfg)
  = Returns st ->
  exists order : list (CUcontext * CUfunction),
    NoDup (order.*2) /\
    (forall f, f ∈ order.*2 <-> f ∈ already_instrumented st) /\
    injected_calls (calls st)
    = flat_map (fun p => flat_map (probes_of_instr cfg) (nvbit_get_instrs p.1 p.2)) order.
Proof.
  intros Hrun.
  destruct (run_scanned_once nvbit_get_related_functions nvbit_get_instrs cfg
              es [] _ st (scanned_once_init nvbit_get_instrs cfg) Hrun)
    as (order & Hnd & Hset & Hlog).
  exists order. split_and!; [done..|].
  unfold injected_calls. rewrite <- inject_filter_scan, Hlog, inject_function_logs.
  rewrite app_nil_r. apply rev_involutive.
Qed.

Lemma injected_calls_of_run_witness :
  exists st,
    run Demo.related Demo.instrs default_config
      (Demo.launch 1 7 ++ Demo.launch 1 7) (nvbit_at_init default_config)
    = Returns st /\
    exists order : list (N * N),
      NoDup (order.*2) /\
      (forall f, f ∈ order.*2 <-> f ∈ already_instrumented st) /\
      injected_calls (calls st)
      = flat_map (fun p => flat_map (probes_of_instr default_config)
                             (Demo.instrs p.1 p.2)) order.
Proof.
  eexists. split; [vm_compute; reflexivity|].
  apply (injected_calls_of_run Demo.related Demo.instrs default_config
           (Demo.launch 1 7 ++ Demo.launch 1 7)).
  vm_compute. reflexivity.
Defined.

(** ** The flags passed at the launches *)

Lemma enable_flags_app l1 l2 :
  enable_flags (l1 ++ l2) = enable_flags l1 ++ enable_flags l2.
Proof. unfold enable_flags. apply flat_map_app. Qed.

Lemma enable_flags_none l :
  Forall (fun c => forall ctx f b, c <> nvbit_enable_instrumented ctx f b) l ->
  enable_flags l = [].
Proof.
  induction 1 as [|c l Hc _ IH]; [done|].
  change (c :: l) with ([c] ++ l).
  rewrite enable_flags_app, IH, app_nil_r. destruct c; try done.
  by destruct (Hc ctx func flag).
Qed.

Section Region.

Variable nvbit_get_related_functions : CUcontext -> CUfunction -> list CUfunction.
Variable nvbit_get_instrs : CUcontext -> CUfunction -> list Instr.
Variable cfg : config.

Local Abbreviation handler :=
  (nvbit_at_cuda_event nvbit_get_related_functions nvbit_get_instrs cfg).
Local Abbreviation exec := (run nvbit_get_related_functions nvbit_get_instrs cfg).
Local Abbreviation exec1 := (step nvbit_get_related_functions nvbit_get_instrs cfg).

(** The decision a launch entry takes in the state it is entered in. *)
Local Abbreviation decision st :=
  (if truthy (active_from_start cfg)
   then (kernel_id st >=? start_grid_num cfg) && (kernel_id st <? end_grid_num cfg)
   else active_region st).

Lemma scan_no_enable ctx f :
  Forall (fun c => forall ctx' g b, c <> nvbit_enable_instrumented ctx' g b)
    (function_log nvbit_get_instrs cfg ctx f).
Proof.
  eapply Forall_impl; [apply function_log_is_scan|].
  intros c Hc ctx' g b ->. discriminate Hc.
Qed.

Lemma step_flags e st st' :
  exec1 e st = Returns st' ->
  exists l, calls st' = calls st ++ l /\
            enable_flags l = if is_launch_entry e then [decision st] else [].
Proof.
  destruct e as [ctx is_exit cbid f sync|a n]; cbn [step is_launch_entry].
  - destruct (is_launch cbid && negb (truthy is_exit)) eqn:Hk.
    + apply andb_true_iff in Hk as [Hl He]. apply negb_true_iff in He.
      destruct (mutex st) eqn:Hm.
      { unfold nvbit_at_cuda_event. rewrite handler_launch, He, Hm by done.
        discriminate. }
      rewrite handler_entry_state by done. intros [= <-].
      rewrite instrument_fresh. cbn [calls call emit set_ballot_counter
        set_shfl_counter set_indirect_counter set_instr_counter set_active_region
        set_already_instrumented set_mutex].
      rewrite <- !app_assoc. eexists. split; [reflexivity|].
      rewrite !enable_flags_app. cbn [app].
      change (enable_flags (GetRelatedFunctions ctx f :: ?l)) with (enable_flags l).
      rewrite (enable_flags_none (flat_map _ _)).
      * reflexivity.
      * apply Forall_flat_map, Forall_forall. intros g _. apply scan_no_enable.
    + intros H. destruct (handler_not_entry _ _ _ _ _ _ _ _ _ _ Hk H)
        as (_ & _ & l & -> & Hall).
      exists l. split; [done|]. apply enable_flags_none.
      eapply Forall_impl; [exact Hall|]. intros c [-> | ->]; discriminate.
  - intros [= <-]. exists []. rewrite app_nil_r. split; [by destruct a|done].
Qed.

(** *** The interval mode *)

Lemma run_flags_interval es st st' :
  active_from_start cfg <> 0 ->
  exec es st = Returns st' ->
  enable_flags (new_calls st st')
  = repeat ((kernel_id st >=? start_grid_num cfg) && (kernel_id st <? end_grid_num cfg))
      (length (filter is_launch_entry es)).
Proof.
  intros Hafs.
  assert (Ht : truthy (active_from_start cfg) = true).
  { unfold truthy. apply Z.eqb_neq in Hafs. by rewrite Hafs. }
  revert st. induction es as [|e es IH]; intros st; cbn [run].
  - intros [= <-]. unfold new_calls. by rewrite drop_all.
  - destruct (exec1 e st) as [st1| |] eqn:He; try discriminate.
    intros Hrun. specialize (IH _ Hrun).
    destruct (step_flags _ _ _ He) as (l1 & Hl1 & Hf1).
    destruct (run_grows _ _ _ _ _ _ Hrun) as (_ & l2 & Hl2).
    rewrite (step_kernel_id _ _ _ _ _ _ He) in IH.
    unfold new_calls in *. rewrite Hl2, Hl1, <- app_assoc, drop_app_length.
    rewrite Hl2, drop_app_length in IH.
    rewrite enable_flags_app, Hf1, IH, Ht.
    destruct (is_launch_entry e) eqn:Hk.
    + rewrite filter_cons_True by (by rewrite Hk). reflexivity.
    + rewrite filter_cons_False by (rewrite Hk; cbn; tauto). reflexivity.
Qed.

(** *** The signal mode *)

Lemma step_active_signal e st st' :
  active_from_start cfg = 0 ->
  exec1 e st = Returns st' ->
  active_region st' = signal_update e (active_region st).
Proof.
  intros Hafs.
  assert (Ht : truthy (active_from_start cfg) = false) by (unfold truthy; by rewrite Hafs).
  destruct e as [ctx is_exit cbid f sync|a n]; cbn [step signal_update].
  - destruct (is_launch cbid && negb (truthy is_exit)) eqn:Hk.
    + apply andb_true_iff in Hk as [Hl He]. apply negb_true_iff in He.
      destruct (mutex st) eqn:Hm.
      { unfold nvbit_at_cuda_event. rewrite handler_launch, He, Hm by done.
        discriminate. }
      rewrite handler_entry_state by done. intros [= <-]. rewrite Ht.
      destruct cbid; try discriminate Hl; reflexivity.
    + unfold nvbit_at_cuda_event. rewrite Ht.
      destruct (is_launch cbid) eqn:Hl.
      * rewrite handler_launch by done. cbn in Hk. rewrite Hk.
        destruct (negb (sync =? cudaSuccess)); [discriminate|]. intros [= <-].
        destruct cbid; try discriminate Hl; reflexivity.
      * rewrite handler_not_launch by done.
        destruct cbid; try discriminate Hl; cbn;
          destruct (truthy is_exit); cbn; intros [= <-]; reflexivity.
  - intros [= <-]. by destruct a.
Qed.

Lemma run_flags_signal es st st' :
  active_from_start cfg = 0 ->
  exec es st = Returns st' ->
  enable_flags (new_calls st st') = signal_flags es (active_region st).
Proof.
  intros Hafs.
  assert (Ht : truthy (active_from_start cfg) = false) by (unfold truthy; by rewrite Hafs).
  revert st. induction es as [|e es IH]; intros st; cbn [run signal_flags].
  - intros [= <-]. unfold new_calls. by rewrite drop_all.
  - destruct (exec1 e st) as [st1| |] eqn:He; try discriminate.
    intros Hrun. specialize (IH _ Hrun).
    destruct (step_flags _ _ _ He) as (l1 & Hl1 & Hf1).
    destruct (run_grows _ _ _ _ _ _ Hrun) as (_ & l2 & Hl2).
    rewrite (step_active_signal _ _ _ Hafs He) in IH.
    unfold new_calls in *. rewrite Hl2, Hl1, <- app_assoc, drop_app_length.
    rewrite Hl2, drop_app_length in IH.
    rewrite enable_flags_app, Hf1, IH, Ht. reflexivity.
Qed.

(** *** The mutex between an entry and its exit *)

Lemma step_no_launch_mutex e st :
  is_launch_callback e = false ->
  exists st', exec1 e st = Returns st' /\ mutex st' = mutex st.
Proof.
  destruct e as [ctx is_exit cbid f sync|a n]; cbn [step is_launch_callback].
  - intros Hl. unfold nvbit_at_cuda_event. rewrite handler_not_launch by done.
    repeat match goal with
           | |- context [if ?b then _ else _] => destruct b; cbn
           end; eauto.
  - intros _. eexists. split; [reflexivity|]. by destruct a.
Qed.

Lemma run_blocks_while_held es ctx is_exit cbid f sync st :
  mutex st = true ->
  Forall (fun e => is_launch_callback e = true -> is_launch_entry e = true) es ->
  is_launch cbid = true -> truthy is_exit = false ->
  exec (es ++ [Callback ctx is_exit cbid f sync]) st = Blocks.
Proof.
  intros Hm Hes Hl He. revert st Hm.
  induction Hes as [|e es Hentry _ IH]; intros st Hm; cbn [app run step].
  - by rewrite handler_entry_blocks.
  - destruct (is_launch_callback e) eqn:Hk.
    + specialize (Hentry eq_refl). destruct e as [c x b g s|]; [|discriminate].
      cbn in Hentry. apply andb_true_iff in Hentry as [Hl' He'].
      apply negb_true_iff in He'. cbn [step]. by rewrite handler_entry_blocks.
    + destruct (step_no_launch_mutex e st Hk) as (st1 & -> & Hm1).
      apply IH. by rewrite Hm1.
Qed.

End Region.

(** X4. When the region is interval-driven, every launch entry of a run takes
    the same decision, the one the launch index of the starting state gives,
    because no callback changes the index: from start-up all launches are
    enabled exactly when [start_grid_num <= 0 < end_grid_num]. *)
Theorem interval_mode_flags
    (nvbit_get_related_functions : CUcontext -> CUfunction -> list CUfunction)
    (nvbit_get_instrs : CUcontext -> CUfunction -> list Instr) (cfg : config) :
  active_from_start cfg <> 0 ->
  (forall es st st',
      run nvbit_get_related_functions nvbit_get_instrs cfg es st = Returns st' ->
      enable_flags (new_calls st st')
      = repeat ((kernel_id st >=? start_grid_num cfg) && (kernel_id st <? end_grid_num cfg))
          (length (filter is_launch_entry es))) /\
  (forall es st',
      run nvbit_get_related_functions nvbit_get_instrs cfg es (nvbit_at_init cfg)
      = Returns st' ->
      enable_flags (calls st')
      = repeat ((0 >=? start_grid_num cfg) && (0 <? end_grid_num cfg))
          (length (filter is_launch_entry es))).
Proof.
  intros Hafs. split.
  - intros es st st'. by apply run_flags_interval.
  - intros es st' Hrun.
    pose proof (run_flags_interval _ _ _ _ _ _ Hafs Hrun) as H.
    unfold new_calls, nvbit_at_init in H.
    destruct (active_from_start cfg =? 0); exact H.
Qed.

Lemma interval_mode_flags_witness :
  active_from_start (with_grid_interval 1 5 default_config) <> 0 /\
  exists st',
    run Demo.related Demo.instrs (with_grid_interval 1 5 default_config)
      (Demo.launch 4 0 ++ Demo.launch 1 0 ++ Demo.launch 4 0)
      (nvbit_at_init (with_grid_interval 1 5 default_config)) = Returns st' /\
    enable_flags (calls st') = [false; false; false].
Proof.
  assert (H : active_from_start (with_grid_interval 1 5 default_config) <> 0)
    by discriminate.
  split; [exact H|]. eexists. split; [vm_compute; reflexivity|].
  apply (proj2 (interval_mode_flags Demo.related Demo.instrs
                  (with_grid_interval 1 5 default_config) H)
           (Demo.launch 4 0 ++ Demo.launch 1 0 ++ Demo.launch 4 0)).
  vm_compute. reflexivity.
Defined.

(** X5. When the region is driven by the profiler, the flag a launch entry
    passes is the one set by the last [cuProfilerStart] or [cuProfilerStop]
    callback that has exited before it ([true] after a start, [false] after a
    stop), and [false] when there was none since start-up; the entry phase
    of these callbacks, the launches themselves and all other callbacks do
    not change it. *)
Theorem signal_mode_flags
    (nvbit_get_related_functions : CUcontext -> CUfunction -> list CUfunction)
    (nvbit_get_instrs : CUcontext -> CUfunction -> list Instr) (cfg : config) :
  active_from_start cfg = 0 ->
  (forall es st st',
      run nvbit_get_related_functions nvbit_get_instrs cfg es st = Returns st' ->
      enable_flags (new_calls st st') = signal_flags es (active_region st)) /\
  (forall es st',
      run nvbit_get_related_functions nvbit_get_instrs cfg es (nvbit_at_init cfg)
      = Returns st' ->
      enable_flags (calls st') = signal_flags es false).
Proof.
  intros Hafs. split.
  - intros es st st'. by apply run_flags_signal.
  - intros es st' Hrun.
    pose proof (run_flags_signal _ _ _ _ _ _ Hafs Hrun) as H.
    unfold new_calls, nvbit_at_init in H. rewrite Hafs in H. exact H.
Qed.

Lemma signal_mode_flags_witness :
  active_from_start signal_driven_config = 0 /\
  exists st',
    run Demo.related Demo.instrs signal_driven_config
      (Demo.launch 4 0 ++ Demo.profiler_start :: Demo.launch 4 0 ++
       Demo.profiler_stop :: Demo.launch 1 0)
      (nvbit_at_init signal_driven_config) = Returns st' /\
    enable_flags (calls st') = [false; true; false].
Proof.
  split; [reflexivity|]. eexists. split; [vm_compute; reflexivity|].
  apply (proj2 (signal_mode_flags Demo.related Demo.instrs signal_driven_config
                  eq_refl)
           (Demo.launch 4 0 ++ Demo.profiler_start :: Demo.launch 4 0 ++
            Demo.profiler_stop :: Demo.launch 1 0)).
  vm_compute. reflexivity.
Defined.

(** X6. Between a launch entry that has returned and the exit of a launch, a
    further launch entry never returns: whatever cooperative, profiler or
    other callbacks and device activity come in between, the run ends
    waiting for the mutex. *)
Theorem launch_entry_waits_for_exit
    (nvbit_get_related_functions : CUcontext -> CUfunction -> list CUfunction)
    (nvbit_get_instrs : CUcontext -> CUfunction -> list Instr) (cfg : config)
    (ctx : CUcontext) (is_exit : Z) (cbid : nvbit_api_cuda_t) (f : CUfunction)
    (sync : Z) (st st1 : state) (es : list event)
    (ctx' : CUcontext) (is_exit' : Z) (cbid' : nvbit_api_cuda_t) (f' : CUfunction)
    (sync' : Z) :
  is_launch cbid = true -> truthy is_exit = false ->
  nvbit_at_cuda_event nvbit_get_related_functions nvbit_get_instrs cfg
    ctx is_exit cbid f sync st = Returns st1 ->
  Forall (fun e => is_launch_callback e = true -> is_launch_entry e = true) es ->
  is_launch cbid' = true -> truthy is_exit' = false ->
  run nvbit_get_related_functions nvbit_get_instrs cfg
    (es ++ [Callback ctx' is_exit' cbid' f' sync']) st1 = Blocks.
Proof.
  intros Hl He Hentry Hes Hl' He'.
  destruct (handler_entry_locks _ _ _ _ _ _ _ _ _ _ Hl He Hentry) as (_ & Hm & _).
  by apply run_blocks_while_held.
Qed.

Lemma launch_entry_waits_for_exit_witness :
  exists st1,
    nvbit_at_cuda_event Demo.related Demo.instrs default_config
      0 0 API_CUDA_cuLaunchKernel 1 cudaSuccess (nvbit_at_init default_config)
    = Returns st1 /\
    run Demo.related Demo.instrs default_config
      (Demo.cooperative_launch 4 ++ [Demo.profiler_start] ++
       [Callback 0 0 API_CUDA_cuLaunchGrid 4 cudaSuccess]) st1 = Blocks.
Proof.
  eexists. split; [vm_compute; reflexivity|].
  apply (launch_entry_waits_for_exit Demo.related Demo.instrs default_config
           0%N 0 API_CUDA_cuLaunchKernel 1%N cudaSuccess (nvbit_at_init default_config)
           _ (Demo.cooperative_launch 4 ++ [Demo.profiler_start])
           0%N 0 API_CUDA_cuLaunchGrid 4%N cudaSuccess);
    try reflexivity.
  repeat constructor; discriminate.
Defined.

(** ** Totals over complete launches *)

Section Cycles.

Variable nvbit_get_related_functions : CUcontext -> CUfunction -> list CUfunction.
Variable nvbit_get_instrs : CUcontext -> CUfunction -> list Instr.
Variable cfg : config.

Local Abbreviation cycle :=
  (launch_cycle nvbit_get_related_functions nvbit_get_instrs cfg).
Local Abbreviation cycles :=
  (launch_cycles nvbit_get_related_functions nvbit_get_instrs cfg).

(** One launch: whatever the counters held before the entry, the exit adds
    what the kernel counted, and the mutex is free again. *)
Lemma launch_cycle_totals l st :
  is_launch (launch_cbid l) = true -> mutex st = false ->
  exists st',
    cycle l st = Returns st' /\
    mutex st' = false /\
    total_instr st' = u64 (total_instr st + counted_instr l) /\
    total_indirect st' = u64 (total_indirect st + counted_indirect l) /\
    total_shfl st' = u64 (total_shfl st + counted_shfl l) /\
    total_ballot st' = u64 (total_ballot st + counted_ballot l) /\
    total_cg st' = total_cg st.
Proof.
  intros Hl Hm. unfold launch_cycle.
  rewrite handler_entry_state by done. cbv zeta.
  rewrite instrument_fresh.
  unfold nvbit_at_cuda_event at 1. rewrite handler_launch by done.
  cbn [truthy negb Z.eqb cudaSuccess]. eexists. split; [reflexivity|].
  cbn. done.
Qed.

Lemma launch_cycles_totals ls st :
  Forall (fun l => is_launch (launch_cbid l) = true) ls ->
  mutex st = false -> uint64_totals st ->
  exists st',
    cycles ls st = Returns st' /\
    mutex st' = false /\
    total_instr st' = u64 (total_instr st + sum_list (map counted_instr ls)) /\
    total_indirect st' = u64 (total_indirect st + sum_list (map counted_indirect ls)) /\
    total_shfl st' = u64 (total_shfl st + sum_list (map counted_shfl ls)) /\
    total_ballot st' = u64 (total_ballot st + sum_list (map counted_ballot ls)) /\
    total_cg st' = total_cg st.
Proof.
  intros Hls. revert st. induction Hls as [|l ls Hl _ IH]; intros st Hm Hr.
  - exists st. destruct Hr as (? & ? & ? & ?). cbn.
    rewrite !Z.add_0_r, !u64_small by done. done.
  - destruct (launch_cycle_totals l st Hl Hm)
      as (st1 & Hc & Hm1 & Hi & Hd & Hs & Hb & Hcg).
    destruct (IH st1 Hm1) as (st' & Hcs & Hm' & Hi' & Hd' & Hs' & Hb' & Hcg').
    { unfold uint64_totals. rewrite Hi, Hd, Hs, Hb. split_and!; apply u64_range. }
    exists st'. cbn [launch_cycles map sum_list foldr]. rewrite Hc.
    split; [exact Hcs|]. split; [exact Hm'|].
    rewrite Hi', Hd', Hs', Hb', Hcg', Hi, Hd, Hs, Hb, Hcg, !u64_idem.
    fold (sum_list (map counted_instr ls)) (sum_list (map counted_indirect ls))
      (sum_list (map counted_shfl ls)) (sum_list (map counted_ballot ls)).
    rewrite !Z.add_assoc. done.
Qed.

End Cycles.



(** ** Which callbacks do anything *)

(** X8. A callback waits for the mutex exactly when it is the entry of a
    launch and the mutex is held.  A callback that is neither a launch nor a
    cooperative launch, nor the exit of [cuProfilerStart] or
    [cuProfilerStop], returns the state it was given. *)
Theorem callbacks_that_do_nothing
    (nvbit_get_related_functions : CUcontext -> CUfunction -> list CUfunction)
    (nvbit_get_instrs : CUcontext -> CUfunction -> list Instr) (cfg : config)
    (ctx : CUcontext) (is_exit : Z) (cbid : nvbit_api_cuda_t) (f : CUfunction)
    (sync : Z) (st : state) :
  (nvbit_at_cuda_event nvbit_get_related_functions nvbit_get_instrs cfg
     ctx is_exit cbid f sync st = Blocks
   <-> is_launch cbid = true /\ truthy is_exit = false /\ mutex st = true) /\
  (is_launch cbid = false -> is_cooperative_launch cbid = false ->
   (cbid <> API_CUDA_cuProfilerStart /\ cbid <> API_CUDA_cuProfilerStop) \/
   truthy is_exit = false ->
   nvbit_at_cuda_event nvbit_get_related_functions nvbit_get_instrs cfg
     ctx is_exit cbid f sync st = Returns st).
Proof.
  split.
  - split.
    + intros H. destruct (is_launch cbid) eqn:Hl.
      * destruct (truthy is_exit) eqn:He.
        { unfold nvbit_at_cuda_event in H. rewrite handler_launch, He in H by done.
          cbn in H. by destruct (negb (sync =? cudaSuccess)). }
        destruct (mutex st) eqn:Hm; [done|].
        rewrite handler_entry_state in H by done. discriminate H.
      * unfold nvbit_at_cuda_event in H. rewrite handler_not_launch in H by done.
        repeat match type of H with
               | context [if ?b then _ else _] => destruct b; cbn in H
               end; discriminate H.
    + intros (Hl & He & Hm). by apply handler_entry_blocks.
  - intros Hl Hc Hp. unfold nvbit_at_cuda_event. rewrite handler_not_launch by done.
    destruct cbid; try discriminate Hl; try discriminate Hc; cbn.
    + destruct Hp as [[Hp _]|Hp]; [done|]. by rewrite Hp.
    + destruct Hp as [[_ Hp]|Hp]; [done|]. by rewrite Hp.
    + reflexivity.
Qed.

Lemma callbacks_that_do_nothing_witness :
  is_launch (API_CUDA_other 17) = false /\
  is_cooperative_launch (API_CUDA_other 17) = false /\
  nvbit_at_cuda_event Demo.related Demo.instrs default_config
    0 1 (API_CUDA_other 17) 0 cudaSuccess (set_mutex true Demo.st1)
  = Returns (set_mutex true Demo.st1).
Proof.
  split; [reflexivity|]. split; [reflexivity|].
  apply (proj2 (callbacks_that_do_nothing Demo.related Demo.instrs default_config
                  0%N 1 (API_CUDA_other 17) 0%N cudaSuccess (set_mutex true Demo.st1)));
    [reflexivity | reflexivity | left; split; discriminate].
Defined.

(** ** Diagnostic settings *)

Lemma silent_app l1 l2 : silent (l1 ++ l2) = silent l1 ++ silent l2.
Proof. unfold silent. apply filter_app. Qed.

Lemma silent_cons c l : is_print c = false -> silent (c :: l) = c :: silent l.
Proof. intros H. unfold silent. rewrite filter_cons_True by (by rewrite H). done. Qed.

Lemma silent_patch l :
  Forall (fun c => is_patch c = true) l -> silent l = l.
Proof.
  intros H. unfold silent. apply filter_all_true.
  eapply Forall_impl; [exact H|]. intros c Hc. by destruct c.
Qed.

Section Verbose.

Variable nvbit_get_related_functions : CUcontext -> CUfunction -> list CUfunction.
Variable nvbit_get_instrs : CUcontext -> CUfunction -> list Instr.
Variable cfg : config.
Variable v : Z.

Local Abbreviation cfg' := (with_verbose v cfg).

Lemma silent_instr_log i : silent (instr_log cfg' i) = flat_map (probe cfg i)
  (if eligible cfg i then counters_of i else []).
Proof.
  unfold instr_log. change (eligible cfg' i) with (eligible cfg i).
  destruct (eligible cfg i); [|done].
  rewrite silent_app. change (probe cfg' i) with (probe cfg i).
  rewrite (silent_patch (flat_map _ _)).
  - unfold printed. by destruct (verbose cfg' =? 1), (verbose cfg' =? 2).
  - apply Forall_flat_map, Forall_forall. intros a _. apply probe_is_patch.
Qed.

Lemma silent_instr_logs l :
  silent (flat_map (instr_log cfg') l)
  = flat_map (fun i => flat_map (probe cfg i)
                         (if eligible cfg i then counters_of i else [])) l.
Proof.
  induction l as [|i l IH]; [done|].
  cbn [flat_map]. by rewrite silent_app, silent_instr_log, IH.
Qed.

Lemma silent_function_log ctx f :
  silent (function_log nvbit_get_instrs cfg' ctx f)
  = GetInstrs ctx f ::
    flat_map (fun i => flat_map (probe cfg i)
                         (if eligible cfg i then counters_of i else []))
      (nvbit_get_instrs ctx f).
Proof.
  unfold function_log.
  change (GetInstrs ctx f :: ?l) with ([GetInstrs ctx f] ++ l).
  rewrite !silent_app, silent_instr_logs.
  by destruct (truthy (verbose cfg')).
Qed.

Lemma silent_function_logs ctx fs :
  silent (flat_map (function_log nvbit_get_instrs cfg' ctx) fs)
  = flat_map (fun f => GetInstrs ctx f ::
      flat_map (fun i => flat_map (probe cfg i)
                           (if eligible cfg i then counters_of i else []))
        (nvbit_get_instrs ctx f)) fs.
Proof.
  induction fs as [|f fs IH]; [done|].
  cbn [flat_map]. by rewrite silent_app, silent_function_log, IH.
Qed.

End Verbose.

Section Mute.

Variable nvbit_get_related_functions : CUcontext -> CUfunction -> list CUfunction.
Variable nvbit_get_instrs : CUcontext -> CUfunction -> list Instr.
Variable cfg : config.
Variable v : Z.

Local Abbreviation cfg' := (with_verbose v cfg).

(** The silent part of a scan does not depend on the verbosity. *)
Lemma silent_scans ctx fs :
  silent (flat_map (function_log nvbit_get_instrs cfg' ctx) fs)
  = silent (flat_map (function_log nvbit_get_instrs cfg ctx) fs).
Proof.
  rewrite silent_function_logs. symmetry.
  pose proof (silent_function_logs nvbit_get_instrs cfg (verbose cfg) ctx fs) as H.
  replace (with_verbose (verbose cfg) cfg) with cfg in H by (by destruct cfg).
  exact H.
Qed.

Lemma handler_mute ctx is_exit cbid f sync (m : state) c1 c2 :
  silent c1 = silent c2 ->
  mute_outcome (nvbit_at_cuda_event nvbit_get_related_functions nvbit_get_instrs cfg'
                  ctx is_exit cbid f sync (set_calls c1 m))
  = mute_outcome (nvbit_at_cuda_event nvbit_get_related_functions nvbit_get_instrs cfg
                    ctx is_exit cbid f sync (set_calls c2 m)).
Proof.
  intros Hc.
  destruct (is_launch cbid) eqn:Hl; [destruct (truthy is_exit) eqn:He|].
  - unfold nvbit_at_cuda_event. rewrite !handler_launch, He by done. cbn [negb].
    cbv zeta. destruct (negb (sync =? cudaSuccess)); [done|].
    unfold mute_outcome, mute, set_calls; cbn. do 2 f_equal.
    by rewrite <- !app_assoc, !silent_app, Hc.
  - destruct (mutex m) eqn:Hm.
    + rewrite !handler_entry_blocks; done.
    + rewrite !handler_entry_state by done. cbv zeta.
      rewrite !instrument_fresh.
      unfold mute_outcome, mute, set_calls; cbn. do 2 f_equal.
      rewrite <- !app_assoc, !silent_app, Hc, !silent_cons, silent_scans by done.
      reflexivity.
  - unfold nvbit_at_cuda_event. rewrite !handler_not_launch by done.
    cbn [active_from_start with_verbose].
    repeat match goal with
           | |- context [if ?b then _ else _] => destruct b; cbn
           end;
      unfold mute, set_calls; cbn; by rewrite ?Hc.
Qed.

Lemma step_mute e st1 st2 :
  mute st1 = mute st2 ->
  mute_outcome (step nvbit_get_related_functions nvbit_get_instrs cfg' e st1)
  = mute_outcome (step nvbit_get_related_functions nvbit_get_instrs cfg e st2).
Proof.
  intros Hm.
  assert (Hc : silent (calls st1) = silent (calls st2))
    by exact (f_equal calls Hm).
  change st1 with (set_calls (calls st1) (mute st1)). rewrite Hm.
  change st2 with (set_calls (calls st2) (mute st2)) at 2.
  destruct e as [ctx is_exit cbid f sync|a n]; cbn [step].
  - by apply handler_mute.
  - unfold mute_outcome, mute, set_calls. destruct a; cbn; by rewrite Hc.
Qed.

Lemma run_mute es st1 st2 :
  mute st1 = mute st2 ->
  mute_outcome (run nvbit_get_related_functions nvbit_get_instrs cfg' es st1)
  = mute_outcome (run nvbit_get_related_functions nvbit_get_instrs cfg es st2).
Proof.
  revert st1 st2. induction es as [|e es IH]; intros st1 st2 Hm; cbn [run].
  - cbn. by rewrite Hm.
  - pose proof (step_mute e st1 st2 Hm) as Hs.
    destruct (step _ _ cfg' e st1) as [s1| |], (step _ _ cfg e st2) as [s2| |];
      try discriminate Hs; try reflexivity.
    apply IH.
    exact (f_equal (fun o => match o with Returns s => s | _ => st1 end) Hs).
Qed.

End Mute.

(** X9. [TOOL_VERBOSE] only adds printing: a run under any verbosity ends as
    the run under the configured one, in the same outcome and, the print
    calls of the log left out, in the same state, so with the same probes,
    the same totals and the same report.  [MANGLED_NAMES] changes nothing at
    all. *)
Theorem diagnostics_only_print
    (nvbit_get_related_functions : CUcontext -> CUfunction -> list CUfunction)
    (nvbit_get_instrs : CUcontext -> CUfunction -> list Instr) (cfg : config) :
  (forall v es st,
      mute_outcome (run nvbit_get_related_functions nvbit_get_instrs
                      (with_verbose v cfg) es st)
      = mute_outcome (run nvbit_get_related_functions nvbit_get_instrs cfg es st)) /\
  (forall v st, nvbit_at_term (with_verbose v cfg) (mute st) = nvbit_at_term cfg st) /\
  (forall b es st,
      run nvbit_get_related_functions nvbit_get_instrs (with_mangled b cfg) es st
      = run nvbit_get_related_functions nvbit_get_instrs cfg es st) /\
  (forall b st, nvbit_at_term (with_mangled b cfg) st = nvbit_at_term cfg st).
Proof.
  split_and!.
  - intros v es st. by apply run_mute.
  - reflexivity.
  - intros b es st. revert st. induction es as [|e es IH]; intros st; [done|].
    cbn [run].
    change (step nvbit_get_related_functions nvbit_get_instrs (with_mangled b cfg) e st)
      with (step nvbit_get_related_functions nvbit_get_instrs cfg e st).
    destruct (step _ _ cfg e st); auto.
  - reflexivity.
Qed.

(** ** The report *)

Lemma append_cons a (s1 s2 : string) :
  (String a s1 ++ s2)%string = String a (s1 ++ s2)%string.
Proof. reflexivity. Qed.

Lemma strip_prefix_app label s : strip_prefix label (label ++ s)%string = Some s.
Proof.
  induction label as [|a label IH]; [done|].
  rewrite append_cons. cbn [strip_prefix]. by rewrite Ascii.eqb_refl.
Qed.

(** A character in front of a text that ends in a newline. *)
Lemma strip_newline_cons c s r :
  strip_newline (s ++ newline)%string = Some r ->
  strip_newline (String c s ++ newline)%string = Some (String c r).
Proof.
  intros H. rewrite append_cons.
  destruct (s ++ newline)%string as [|b t] eqn:E.
  - by destruct s.
  - change (strip_newline (String c (String b t)))
      with (option_map (String c) (strip_newline (String b t))).
    by rewrite H.
Qed.

Lemma string_of_uint_no_newline d :
  strip_newline (NilEmpty.string_of_uint d ++ newline)%string
  = Some (NilEmpty.string_of_uint d).
Proof.
  induction d; cbn [NilEmpty.string_of_uint]; [done|..];
    by apply strip_newline_cons.
Qed.

Lemma string_of_int_no_newline d :
  strip_newline (NilEmpty.string_of_int d ++ newline)%string
  = Some (NilEmpty.string_of_int d).
Proof.
  destruct d as [d|d]; cbn [NilEmpty.string_of_int]; [apply string_of_uint_no_newline|].
  apply strip_newline_cons, string_of_uint_no_newline.
Qed.

Lemma read_line_fmt_ld label v :
  read_line label (label ++ fmt_ld v ++ newline)%string = Some (as_long v).
Proof.
  unfold read_line, fmt_ld. rewrite strip_prefix_app, string_of_int_no_newline.
  rewrite NilEmpty.isi. cbn [option_map]. by rewrite DecimalZ.of_to.
Qed.

Lemma as_long_inj v w :
  0 <= v < 2 ^ 64 -> 0 <= w < 2 ^ 64 -> as_long v = as_long w -> v = w.
Proof.
  unfold as_long. intros Hv Hw.
  destruct (v <? 2 ^ 63) eqn:E1, (w <? 2 ^ 63) eqn:E2;
    rewrite ?Z.ltb_lt, ?Z.ltb_ge in *; lia.
Qed.

(** X10. Each line of the report is its label, the total read as a signed
    long in decimal, and a newline; reading the number back gives the total
    when it is below 2^63 and the total minus 2^64 from there on.  The five
    lines come in the order indirect calls, cooperative launches,
    instructions, shuffles, ballots, and two states of [uint64_t] totals with
    the same report have the same totals. *)
Theorem report_shows_the_totals (cfg : config) (st : state) :
  (match nvbit_at_term cfg st with
   | [l1; l2; l3; l4; l5] =>
       read_line "Total indirect function calls: " l1 = Some (as_long (total_indirect st)) /\
       read_line "Total cooperative group kernel launches: " l2
       = Some (as_long (total_cg st)) /\
       read_line (if count_warp_level cfg =? 1
                  then "Total instructions (warp level): "
                  else "Total instructions (thread level): ") l3
       = Some (as_long (total_instr st)) /\
       read_line "Total __shfl_sync() calls: " l4 = Some (as_long (total_shfl st)) /\
       read_line "Total __ballot_sync() calls: " l5 = Some (as_long (total_ballot st))
   | _ => False
   end) /\
  (forall t, 0 <= t < 2 ^ 63 -> as_long t = t) /\
  (forall t, 2 ^ 63 <= t < 2 ^ 64 -> as_long t = t - 2 ^ 64) /\
  (forall st',
      uint64_report st -> uint64_report st' ->
      nvbit_at_term cfg st = nvbit_at_term cfg st' ->
      total_indirect st = total_indirect st' /\ total_cg st = total_cg st' /\
      total_instr st = total_instr st' /\ total_shfl st = total_shfl st' /\
      total_ballot st = total_ballot st').
Proof.
  assert (Hlines :
    read_line "Total indirect function calls: " (nth 0 (nvbit_at_term cfg st) "")
      = Some (as_long (total_indirect st)) /\
    read_line "Total cooperative group kernel launches: "
      (nth 1 (nvbit_at_term cfg st) "") = Some (as_long (total_cg st)) /\
    read_line (if count_warp_level cfg =? 1
               then "Total instructions (warp level): "
               else "Total instructions (thread level): ")
      (nth 2 (nvbit_at_term cfg st) "") = Some (as_long (total_instr st)) /\
    read_line "Total __shfl_sync() calls: " (nth 3 (nvbit_at_term cfg st) "")
      = Some (as_long (total_shfl st)) /\
    read_line "Total __ballot_sync() calls: " (nth 4 (nvbit_at_term cfg st) "")
      = Some (as_long (total_ballot st))).
  { unfold nvbit_at_term. cbn [nth].
    destruct (count_warp_level cfg =? 1); split_and!; apply read_line_fmt_ld. }
  split_and!.
  - exact Hlines.
  - intros t Ht. unfold as_long.
    assert (Ht' : (t <? 2 ^ 63) = true) by (apply Z.ltb_lt; lia). by rewrite Ht'.
  - intros t Ht. unfold as_long.
    assert (Ht' : (t <? 2 ^ 63) = false) by (apply Z.ltb_ge; lia). by rewrite Ht'.
  - intros st' ((Hi & Hd & Hs & Hb) & Hc) ((Hi' & Hd' & Hs' & Hb') & Hc') Heq.
    assert (H : forall label k,
               read_line label (nth k (nvbit_at_term cfg st) "")
               = read_line label (nth k (nvbit_at_term cfg st') "")) by (by rewrite Heq).
    unfold nvbit_at_term in H.
    pose proof (H "Total indirect function calls: "%string 0%nat) as H0.
    pose proof (H "Total cooperative group kernel launches: "%string 1%nat) as H1.
    pose proof (H (if count_warp_level cfg =? 1
                   then "Total instructions (warp level): "%string
                   else "Total instructions (thread level): "%string) 2%nat) as H2.
    pose proof (H "Total __shfl_sync() calls: "%string 3%nat) as H3.
    pose proof (H "Total __ballot_sync() calls: "%string 4%nat) as H4.
    cbn [nth] in H0, H1, H2, H3, H4.
    destruct (count_warp_level cfg =? 1);
      rewrite !read_line_fmt_ld in H0, H1, H2, H3, H4;
      injection H0 as H0; injection H1 as H1; injection H2 as H2;
      injection H3 as H3; injection H4 as H4;
      split_and!; by apply as_long_inj.
Qed.

Lemma report_shows_the_totals_witness :
  0 <= 1234 < 2 ^ 63 /\ as_long 1234 = 1234 /\
  read_line "Total __shfl_sync() calls: "
    (nth 3 (nvbit_at_term default_config
              (set_total_shfl 1234 (nvbit_at_init default_config))) "")
  = Some 1234.
Proof.
  assert (H : 0 <= 1234 < 2 ^ 63) by lia.
  split; [exact H|]. split.
  - exact (proj1 (proj2 (report_shows_the_totals default_config
                           (nvbit_at_init default_config))) 1234 H).
  - vm_compute. reflexivity.
Defined.
